(** * tamo: ordering, referential integrity and Markdown ingestion

    A shallow embedding of the core of the tamo task/memo tracker
    (packages [model], [cli] and [utils], the Markdown parser and the
    encoding of the data file)
    together with the properties of its ordering engine, of memo removal
    and of ingestion.

    Conventions of the embedding.
    - Go [string] is a byte sequence: [string] of the Standard Library.
    - [float64] is the kernel's binary64 type [float]; Go's [a > b] is
      [b <? a] and [a < b] is [a <? b].
    - [[]*model.Task] is a list of records.  A pointer into [store.Tasks]
      is the position of the task in that list: every command obtains its
      pointer from a scan of the list, and writes through it are list
      updates at that position.
    - What a command reads from outside is an argument: [now] for the
      clock (one reading per command, in seconds), the identifiers that
      successive calls of [utils.GenerateUUID] return (the call fails when
      none is left), the lines of standard input, the content of the file
      named on the command line, and the store decoded from the data file.
      The file operations of [Save] are taken to succeed, and a read of
      standard input fails only on a line too long for the scanner.
    - A command yields the lines it printed (a constructor of [printed] per
      [fmt.Printf] call site or block of consecutive calls, carrying the
      arguments of the call), how it ended, the store in memory and the
      store in the data file when it ended.  Usage texts on standard error
      are left out. *)

From Stdlib Require Import Floats ZArith List Lia String Ascii Bool Permutation Sorted.
From stdpp Require Import base list strings.

Local Open Scope string_scope.
Local Open Scope float_scope.

(** ** Package [model] *)

Record Task := mkTask {
  ID : string;
  Title : string;
  Description : string;
  Order : float;
  Done : bool;
  MemoRefs : list string;
  CreatedAt : Z;
  UpdatedAt : Z
}.

Module Memo.
Record t := mk {
  ID : string;
  Title : option string;
  Content : string;
  CreatedAt : Z;
  UpdatedAt : Z
}.
End Memo.
Abbreviation Memo := Memo.t.

Record Store := mkStore {
  Version : Z;
  Tasks : list Task;
  Memos : list Memo
}.

(** Field assignments [task.Order = o], [task.Done = b], ... *)
Definition set_Order (o : float) (t : Task) : Task :=
  mkTask (ID t) (Title t) (Description t) o (Done t) (MemoRefs t) (CreatedAt t) (UpdatedAt t).
Definition set_Done (b : bool) (t : Task) : Task :=
  mkTask (ID t) (Title t) (Description t) (Order t) b (MemoRefs t) (CreatedAt t) (UpdatedAt t).
Definition set_MemoRefs (r : list string) (t : Task) : Task :=
  mkTask (ID t) (Title t) (Description t) (Order t) (Done t) r (CreatedAt t) (UpdatedAt t).
Definition set_UpdatedAt (now : Z) (t : Task) : Task :=
  mkTask (ID t) (Title t) (Description t) (Order t) (Done t) (MemoRefs t) (CreatedAt t) now.
Definition set_Tasks (ts : list Task) (s : Store) : Store :=
  mkStore (Version s) ts (Memos s).
Definition set_Memos (ms : list Memo) (s : Store) : Store :=
  mkStore (Version s) (Tasks s) ms.

Definition NewStore : Store := mkStore 1 [] [].

Definition NewTask (now : Z) (id title description : string) (memoRefs : list string) : Task :=
  mkTask id title description 0 false memoRefs now now.

Definition NewMemo (now : Z) (id : string) (title : option string) (content : string) : Memo :=
  Memo.mk id title content now now.

(** [for _, task := range s.Tasks { if task.Order > maxOrder { maxOrder = task.Order } }]
    started from [maxOrder := 0.0]. *)
Definition GetMaxTaskOrder (s : Store) : float :=
  fold_left (fun maxOrder task => if maxOrder <? Order task then Order task else maxOrder)
            (Tasks s) 0.

(** Started from [s.Tasks[0].Order]; [0.0] on an empty store. *)
Definition GetMinTaskOrder (s : Store) : float :=
  match Tasks s with
  | [] => 0
  | t0 :: _ =>
      fold_left (fun minOrder task => if Order task <? minOrder then Order task else minOrder)
                (Tasks s) (Order t0)
  end.

(** The first element that satisfies [p], with its position: what a
    [for _, t := range l { if p(t) { x = t; break } }] scan leaves in the
    pointer [x] ([None] is the nil pointer). *)
Fixpoint scan {A : Type} (p : A -> bool) (l : list A) : option (nat * A) :=
  match l with
  | [] => None
  | x :: r => if p x then Some (0%nat, x) else option_map (fun '(i, y) => (S i, y)) (scan p r)
  end.

Definition FindTaskByID (s : Store) (id : string) : option (nat * Task) :=
  scan (fun task => String.eqb (ID task) id) (Tasks s).

Definition FindMemoByID (s : Store) (id : string) : option (nat * Memo) :=
  scan (fun memo => String.eqb (Memo.ID memo) id) (Memos s).

Definition AddTask (task : Task) (s : Store) : Store := set_Tasks (Tasks s ++ [task]) s.
Definition AddMemo (memo : Memo) (s : Store) : Store := set_Memos (Memos s ++ [memo]) s.

(** ** Strings: the functions of [strings] the commands call *)

(** The line feed. *)
Definition lf : ascii := ascii_of_nat 10.

Definition newline : string := String lf EmptyString.

(** [strings.HasPrefix(s, prefix)] *)
Definition HasPrefix (s prefix : string) : bool := String.prefix prefix s.

(** [s[n:]] for [n <= len(s)] *)
Fixpoint skip (n : nat) (s : string) : string :=
  match n, s with
  | S m, String _ r => skip m r
  | _, _ => s
  end.

(** The text before and the text after the first occurrence of [sep] in
    [s] ([strings.Index] and the two slices around it). *)
Fixpoint cut (sep s : string) : option (string * string) :=
  if HasPrefix s sep then Some (EmptyString, skip (String.length sep) s)
  else match s with
       | EmptyString => None
       | String c r => option_map (fun '(before, after) => (String c before, after)) (cut sep r)
       end.

(** [strings.Replace(s, old, new, 1)] for a non-empty [old] *)
Definition Replace1 (s old new : string) : string :=
  match cut old s with
  | Some (before, after) => before ++ new ++ after
  | None => s
  end.

(** [strings.Split(s, sep)] for a one-byte [sep] *)
Fixpoint Split (s : string) (sep : ascii) : list string :=
  match s with
  | EmptyString => [EmptyString]
  | String c r =>
      if Ascii.eqb c sep then EmptyString :: Split r sep
      else match Split r sep with
           | [] => [String c EmptyString]
           | w :: ws => String c w :: ws
           end
  end.

(** [strings.Join(l, sep)] *)
Fixpoint Join (l : list string) (sep : string) : string :=
  match l with
  | [] => EmptyString
  | [w] => w
  | w :: ws => w ++ sep ++ Join ws sep
  end.

(** The UTF-8 encodings of the runes for which [unicode.IsSpace] holds:
    tab, line feed, vertical tab, form feed, carriage return, space,
    U+0085, U+00A0, U+1680, U+2000..U+200A, U+2028, U+2029, U+202F, U+205F
    and U+3000. *)
Definition spaceRunes : list (list ascii) :=
  map (map ascii_of_nat)
    [ [9]; [10]; [11]; [12]; [13]; [32]; [194; 133]; [194; 160]; [225; 154; 128];
      [226; 128; 128]; [226; 128; 129]; [226; 128; 130]; [226; 128; 131];
      [226; 128; 132]; [226; 128; 133]; [226; 128; 134]; [226; 128; 135];
      [226; 128; 136]; [226; 128; 137]; [226; 128; 138]; [226; 128; 168];
      [226; 128; 169]; [226; 128; 175]; [226; 129; 159]; [227; 128; 128] ]%nat.

Fixpoint startsWith (w l : list ascii) : bool :=
  match w, l with
  | [], _ => true
  | a :: w', b :: l' => Ascii.eqb a b && startsWith w' l'
  | _ :: _, [] => false
  end.

(** The rest of [l] after a leading space rune, when it has one. *)
Definition dropSpace (runes : list (list ascii)) (l : list ascii) : option (list ascii) :=
  match find (fun w => startsWith w l) runes with
  | Some w => Some (drop (length w) l)
  | None => None
  end.

Fixpoint trimLeft (runes : list (list ascii)) (fuel : nat) (l : list ascii) : list ascii :=
  match fuel with
  | O => l
  | S f => match dropSpace runes l with
           | Some r => trimLeft runes f r
           | None => l
           end
  end.

(** [strings.TrimSpace]: leading space runes are dropped, then trailing
    ones (read from the reversed text, against the reversed encodings). *)
Definition TrimSpace (s : string) : string :=
  let l := list_ascii_of_string s in
  let l1 := trimLeft spaceRunes (length l) l in
  let l2 := trimLeft (map (@rev ascii) spaceRunes) (length l1) (rev l1) in
  string_of_list_ascii (rev l2).

(** [s[:8]]: [None] is the run-time panic on a string shorter than 8 bytes. *)
Definition slice8 (s : string) : option string :=
  if (8 <=? String.length s)%nat then Some (substring 0 8 s) else None.

(** ** Package [cli]: what a command leaves behind *)

(** One constructor per [fmt.Printf] / [fmt.Println] call site. *)
Inductive printed : Type :=
| PrintTaskAdded (id : string)
| PrintTaskRemoved (title : string)
| PrintMemoReferenced (n : nat)
| PrintReferencing (id8 title : string)
| PrintForcing (n : nat)
| PrintMemoRemoved (titleStr : string)
| PrintMovedRelative (title where_ targetTitle : string)
| PrintMovedTo (title : string) (targetOrder : float)
| PrintMarkedDone (title : string)
| PrintConfirm (title : string)
| PrintRemovalAborted
| PrintDetails (task : Task)
| PrintDescription (description : string)
| PrintReferencedMemos
| PrintMemoLine (id8 titleStr : string)
| PrintMemoNotFound (id8 : string)
| PrintCreatedMemos (n : nat)
| PrintMemoID (id8 : string).

(** One constructor per [fmt.Errorf] call site. *)
Inductive error : Type :=
| ErrMissingID
| ErrMemoRemovalAborted
| ErrNoTaskOrMemo (id : string)
| ErrSave
| ErrMissingArguments
| ErrNoTask (taskID : string)
| ErrMissingTarget
| ErrNoTargetTask (targetTaskID : string)
| ErrInvalidTargetOrder (arg : string)
| ErrPopSubcommand
| ErrPopFlags
| ErrNoTasksFound
| ErrMissingTitle
| ErrMemoNotFound (memoID : string)
| ErrUUID
| ErrUUIDMemo
| ErrUUIDTask
| ErrMarkdownArguments
| ErrMissingFilePath
| ErrInvalidOption (arg : string)
| ErrReadFile
| ErrParseMarkdown (e : error)
| ErrReadStdin.

(** How a command ended: it returned nil, it returned an error, or the
    run-time system stopped it (a slice expression out of range). *)
Inductive ending : Type :=
| Nil
| Failed (e : error)
| Panic.

Record run := mkRun {
  stdout : list printed;
  result : ending;
  mem : Store;     (* the store in memory when the command ended *)
  disk : Store     (* the store last saved to the data file *)
}.

(** [json.MarshalIndent] refuses a float64 that is infinite or not a
    number; every other value of the store has an encoding.  The file
    operations of [Save] are taken to succeed. *)
Definition encodable (s : Store) : bool := forallb (fun task => is_finite (Order task)) (Tasks s).

(** [if err := s.Save(store); err != nil { return ... }] followed by the
    lines printed after a successful save and [return nil], in the
    commands that put no text of their own into the store: its texts are
    the ones decoded from the data file, and the encoder writes them as
    they are. *)
Definition saveAndReport (out : list printed) (store old : Store) (report : list printed) : run :=
  if encodable store then mkRun (out ++ report) Nil store store
  else mkRun out (Failed ErrSave) store old.

(** ** Package [storage]: the texts that [Save] writes

    [json.MarshalIndent] coerces a string to valid UTF-8: it reads the
    string rune by rune and writes the replacement rune U+FFFD for every
    byte at which [utf8.DecodeRuneInString] finds no valid encoding. *)

(** The byte [c] lies in the range from [lo] to [hi]. *)
Definition between (lo hi : nat) (c : ascii) : bool :=
  (lo <=? nat_of_ascii c)%nat && (nat_of_ascii c <=? hi)%nat.

(** The bytes from [lo] to [hi]. *)
Definition range (lo hi : nat) : nat * nat := (lo, hi).

(** The ranges of the bytes that have to follow the first byte [c] of an
    encoding; [None] for a byte that starts none. *)
Definition continuation (c : ascii) : option (list (nat * nat)) :=
  if between 0 127 c then Some []
  else if between 194 223 c then Some [range 128 191]
  else if between 224 224 c then Some [range 160 191; range 128 191]
  else if between 225 236 c || between 238 239 c then Some [range 128 191; range 128 191]
  else if between 237 237 c then Some [range 128 159; range 128 191]
  else if between 240 240 c then Some [range 144 191; range 128 191; range 128 191]
  else if between 241 243 c then Some [range 128 191; range 128 191; range 128 191]
  else if between 244 244 c then Some [range 128 143; range 128 191; range 128 191]
  else None.

(** The text [s] starts with bytes in the given ranges. *)
Fixpoint follows (ranges : list (nat * nat)) (s : string) : bool :=
  match ranges, s with
  | [], _ => true
  | (lo, hi) :: r, String c s' => between lo hi c && follows r s'
  | _ :: _, EmptyString => false
  end.

(** The encoding of U+FFFD. *)
Definition replacement : string :=
  String (ascii_of_nat 239) (String (ascii_of_nat 191) (String (ascii_of_nat 189) EmptyString)).

(** The text that is read back for [s]: a valid encoding is kept, with
    the [pending] bytes that are left of it, and every other byte is
    replaced. *)
Fixpoint coerce (pending : nat) (s : string) : string :=
  match s with
  | EmptyString => EmptyString
  | String c r =>
      match pending with
      | S k => String c (coerce k r)
      | O =>
          match continuation c with
          | Some ranges =>
              if follows ranges r then String c (coerce (length ranges) r)
              else replacement ++ coerce 0 r
          | None => replacement ++ coerce 0 r
          end
      end
  end.

Definition writtenTask (t : Task) : Task :=
  mkTask (coerce 0 (ID t)) (coerce 0 (Title t)) (coerce 0 (Description t)) (Order t) (Done t)
         (map (coerce 0) (MemoRefs t)) (CreatedAt t) (UpdatedAt t).

Definition writtenMemo (m : Memo) : Memo :=
  Memo.mk (coerce 0 (Memo.ID m)) (option_map (coerce 0) (Memo.Title m)) (coerce 0 (Memo.Content m))
          (Memo.CreatedAt m) (Memo.UpdatedAt m).

(** The store that the data file holds after [Save] of [s]. *)
Definition written (s : Store) : Store :=
  mkStore (Version s) (map writtenTask (Tasks s)) (map writtenMemo (Memos s)).

(** [Save] and the report in the commands that put texts of their own
    into the store, from the command line, a file or standard input. *)
Definition saveNewAndReport (out : list printed) (store old : Store) (report : list printed) : run :=
  if encodable store then mkRun (out ++ report) Nil store (written store)
  else mkRun out (Failed ErrSave) store old.

(** ** Package [cli]: helper functions *)

(** [if tasks[i].Order > tasks[j].Order { tasks[i], tasks[j] = tasks[j], tasks[i] }] *)
Definition exchange (i j : nat) (tasks : list Task) : list Task :=
  match tasks !! i, tasks !! j with
  | Some ti, Some tj => if Order tj <? Order ti then <[j := ti]> (<[i := tj]> tasks) else tasks
  | _, _ => tasks
  end.

(** [for j := ...; j < len(tasks); j++], with [fuel] iterations left. *)
Fixpoint sortInner (fuel i j : nat) (tasks : list Task) : list Task :=
  match fuel with
  | O => tasks
  | S f => sortInner f i (S j) (exchange i j tasks)
  end.

(** [for i := ...; i < len(tasks); i++], with [fuel] iterations left. *)
Fixpoint sortOuter (fuel i : nat) (tasks : list Task) : list Task :=
  match fuel with
  | O => tasks
  | S f => sortOuter f (S i) (sortInner (length tasks - S i) i (S i) tasks)
  end.

Definition sortTasksByOrder (tasks : list Task) : list Task :=
  sortOuter (length tasks) 0 tasks.

Definition containsString (slice : list string) (s : string) : bool :=
  existsb (fun item => String.eqb item s) slice.

(** [append(l[:i], l[i+1:]...)] at the first [i] with [p l[i]], then [break]. *)
Fixpoint removeFirst {A : Type} (p : A -> bool) (l : list A) : list A :=
  match l with
  | [] => []
  | x :: r => if p x then r else x :: removeFirst p r
  end.

Definition removeTask (store : Store) (id : string) : Store :=
  set_Tasks (removeFirst (fun task => String.eqb (ID task) id) (Tasks store)) store.

Definition removeMemo (store : Store) (id : string) : Store :=
  let memos := removeFirst (fun memo => String.eqb (Memo.ID memo) id) (Memos store) in
  let tasks :=
    map (fun task => set_MemoRefs (removeFirst (fun memoID => String.eqb memoID id) (MemoRefs task)) task)
        (Tasks store) in
  mkStore (Version store) tasks memos.

Definition findTasksReferencingMemo (store : Store) (memoID : string) : list Task :=
  List.filter (fun task => containsString (MemoRefs task) memoID) (Tasks store).

(** The lookup every command starts with: [FindTaskByID] for a 36-byte
    id, the first task whose id has the given prefix otherwise. *)
Definition lookupTask (store : Store) (id : string) : option (nat * Task) :=
  if (String.length id =? 36)%nat then FindTaskByID store id
  else scan (fun t => HasPrefix (ID t) id) (Tasks store).

Definition lookupMemo (store : Store) (id : string) : option (nat * Memo) :=
  if (String.length id =? 36)%nat then FindMemoByID store id
  else scan (fun m => HasPrefix (Memo.ID m) id) (Memos store).

(** ** [executeRemove]: the [rm] command *)

(** The loop that prints [task.ID[:8]] and [task.Title] for every
    referencing task; [false] when a slice expression panicked. *)
Fixpoint printReferencing (tasks : list Task) : list printed * bool :=
  match tasks with
  | [] => ([], true)
  | task :: r =>
      match slice8 (ID task) with
      | None => ([], false)
      | Some id8 => let '(out, ok) := printReferencing r in (PrintReferencing id8 (Title task) :: out, ok)
      end
  end.

Definition executeRemove (args : list string) (store : Store) : run :=
  match args with
  | [] => mkRun [] (Failed ErrMissingID) store store
  | id :: flags =>
      let force := existsb (fun a => String.eqb a "-f" || String.eqb a "--force") flags in
      match lookupTask store id with
      | Some (_, task) =>
          saveAndReport [] (removeTask store (ID task)) store [PrintTaskRemoved (Title task)]
      | None =>
          match lookupMemo store id with
          | Some (_, memo) =>
              let referencingTasks := findTasksReferencingMemo store (Memo.ID memo) in
              let n := length referencingTasks in
              let titleStr := match Memo.Title memo with Some t => t | None => "<no title>" end in
              let remove (out : list printed) :=
                saveAndReport out (removeMemo store (Memo.ID memo)) store [PrintMemoRemoved titleStr] in
              if (0 <? n)%nat then
                if negb force then
                  let '(lines, ok) := printReferencing referencingTasks in
                  mkRun (PrintMemoReferenced n :: lines)
                        (if ok then Failed ErrMemoRemovalAborted else Panic) store store
                else remove [PrintForcing n]
              else remove []
          | None => mkRun [] (Failed (ErrNoTaskOrMemo id)) store store
          end
      end
  end.

(** ** [executeMove]: the [mv] command *)

(** The first position [i] at which [p i l[i]] holds. *)
Fixpoint scanFrom {A : Type} (p : nat -> A -> bool) (i : nat) (l : list A) : option nat :=
  match l with
  | [] => None
  | x :: r => if p i x then Some i else scanFrom p (S i) r
  end.

(** [for i, t := range tasks { if t.ID == targetTask.ID && i > 0 { prevTask = tasks[i-1]; break } }] *)
Definition prevTask (tasks : list Task) (targetID : string) : option Task :=
  match scanFrom (fun i t => String.eqb (ID t) targetID && (0 <? i)%nat) 0 tasks with
  | Some i => tasks !! (i - 1)%nat
  | None => None
  end.

(** [for i, t := range tasks { if t.ID == targetTask.ID && i < len(tasks)-1 { nextTask = tasks[i+1]; break } }] *)
Definition nextTask (tasks : list Task) (targetID : string) : option Task :=
  match scanFrom (fun i t => String.eqb (ID t) targetID && (i <? length tasks - 1)%nat) 0 tasks with
  | Some i => tasks !! (i + 1)%nat
  | None => None
  end.

(** The order a relative move assigns, from the sorted copy of the tasks. *)
Definition relativeOrder (where_ : string) (tasks : list Task) (targetTask : Task) : float :=
  if String.eqb where_ "before" then
    match prevTask tasks (ID targetTask) with
    | Some prev => (Order prev + Order targetTask) / 2
    | None => Order targetTask - 1
    end
  else
    match nextTask tasks (ID targetTask) with
    | Some next => (Order targetTask + Order next) / 2
    | None => Order targetTask + 1
    end.

(** [task.Order = newOrder; task.UpdatedAt = now] through the pointer [p]. *)
Definition moveTo (now : Z) (p : nat) (newOrder : float) (store : Store) : Store :=
  set_Tasks (alter (fun task => set_UpdatedAt now (set_Order newOrder task)) p (Tasks store)) store.

Section Move.

(** [strconv.ParseFloat(s, 64)]; [None] when it returns an error. *)
Variable ParseFloat : string -> option float.

Definition executeMove (now : Z) (args : list string) (store : Store) : run :=
  match args with
  | taskID :: arg1 :: rest =>
      match lookupTask store taskID with
      | None => mkRun [] (Failed (ErrNoTask taskID)) store store
      | Some (p, task) =>
          let tasks := sortTasksByOrder (Tasks store) in
          if String.eqb arg1 "before" || String.eqb arg1 "after" then
            match rest with
            | [] => mkRun [] (Failed ErrMissingTarget) store store
            | targetTaskID :: _ =>
                match lookupTask store targetTaskID with
                | None => mkRun [] (Failed (ErrNoTargetTask targetTaskID)) store store
                | Some (_, targetTask) =>
                    let newOrder := relativeOrder arg1 tasks targetTask in
                    saveAndReport [] (moveTo now p newOrder store) store
                      [PrintMovedRelative (Title task) arg1 (Title targetTask)]
                end
            end
          else
            match ParseFloat arg1 with
            | None => mkRun [] (Failed (ErrInvalidTargetOrder arg1)) store store
            | Some targetOrder =>
                saveAndReport [] (moveTo now p targetOrder store) store
                  [PrintMovedTo (Title task) targetOrder]
            end
      end
  | _ => mkRun [] (Failed ErrMissingArguments) store store
  end.

End Move.

(** ** [executePop]: the [pop task] command *)

(** [for _, task := range store.Tasks { if task.Order > maxOrder { lastTask = task; maxOrder = task.Order } }],
    at position [i] of the scan. *)
Fixpoint selectLast (i : nat) (tasks : list Task) (lastTask : option (nat * Task)) (maxOrder : float)
  : option (nat * Task) :=
  match tasks with
  | [] => lastTask
  | task :: r =>
      if maxOrder <? Order task then selectLast (S i) r (Some (i, task)) (Order task)
      else selectLast (S i) r lastTask maxOrder
  end.

(** [var lastTask *model.Task; maxOrder := -1.0] and the scan. *)
Definition findLastTask (store : Store) : option (nat * Task) :=
  selectLast 0 (Tasks store) None (-1).

(** The lines for the memos a task refers to; [false] when [memoID[:8]] panicked. *)
Fixpoint printMemoRefs (store : Store) (refs : list string) : list printed * bool :=
  match refs with
  | [] => ([], true)
  | memoID :: r =>
      match slice8 memoID with
      | None => ([], false)
      | Some id8 =>
          let line :=
            match FindMemoByID store memoID with
            | Some (_, memo) =>
                PrintMemoLine id8 (match Memo.Title memo with Some t => t | None => "<no title>" end)
            | None => PrintMemoNotFound id8
            end in
          let '(out, ok) := printMemoRefs store r in (line :: out, ok)
      end
  end.

(** [strings.ToLower(confirmation) != "y"]: only the bytes y and Y have
    lower case y. *)
Definition confirmed (confirmation : string) : bool :=
  String.eqb confirmation "y" || String.eqb confirmation "Y".

(** [line] is what [reader.ReadString] returned for the confirmation. *)
Definition executePop (now : Z) (line : string) (args : list string) (store : Store) : run :=
  match args with
  | sub :: flags =>
      if negb (String.eqb sub "task") then mkRun [] (Failed ErrPopSubcommand) store store
      else
        let doneFlag := existsb (String.eqb "--done") flags in
        let rmFlag := existsb (String.eqb "--rm") flags in
        let forceFlag := existsb (String.eqb "-f") flags in
        if doneFlag && rmFlag then mkRun [] (Failed ErrPopFlags) store store
        else
          match findLastTask store with
          | None => mkRun [] (Failed ErrNoTasksFound) store store
          | Some (p, lastTask) =>
              if doneFlag then
                saveAndReport []
                  (set_Tasks (alter (fun t => set_UpdatedAt now (set_Done true t)) p (Tasks store)) store)
                  store [PrintMarkedDone (Title lastTask)]
              else if rmFlag then
                let remove (out : list printed) :=
                  saveAndReport out (removeTask store (ID lastTask)) store
                    [PrintTaskRemoved (Title lastTask)] in
                if negb forceFlag then
                  if confirmed (TrimSpace line) then remove [PrintConfirm (Title lastTask)]
                  else mkRun [PrintConfirm (Title lastTask); PrintRemovalAborted] Nil store store
                else remove []
              else
                let description :=
                  if String.eqb (Description lastTask) "" then []
                  else [PrintDescription (Description lastTask)] in
                let '(memos, ok) :=
                  match MemoRefs lastTask with
                  | [] => ([], true)
                  | refs => let '(lines, ok) := printMemoRefs store refs in (PrintReferencedMemos :: lines, ok)
                  end in
                mkRun (PrintDetails lastTask :: description ++ memos) (if ok then Nil else Panic) store store
          end
  | [] => mkRun [] (Failed ErrPopSubcommand) store store
  end.

(** ** The Markdown parser *)

(** A function that returns a value or an error. *)
Inductive outcome (A : Type) : Type :=
| Ok (a : A)
| Err (e : error).
Arguments Ok {A} a.
Arguments Err {A} e.

(** A line that [(?m)^# (.+)$] matches: the two bytes [# ] at the start
    of a line and at least one more byte before the line ends.  The group
    is the rest of the line, since [.] takes every byte but the line feed. *)
Definition isHeading (line : string) : bool :=
  HasPrefix line "# " && (2 <? String.length line)%nat.

(** [titleRegex.FindStringSubmatch(content)]: the group of the leftmost match. *)
Definition titleMatch (content : string) : option string :=
  option_map (skip 2) (find isHeading (Split content lf)).

(** [titleRegex.ReplaceAllString(content, "")]: every match is replaced
    by the empty text; the line feeds around it stay. *)
Definition removeTitles (content : string) : string :=
  Join (map (fun line => if isHeading line then EmptyString else line)
            (Split content lf)) newline.

Definition memoOpen : string := "```memo" ++ newline.
Definition memoClose : string := newline ++ "```".

(** The leftmost match of [(?s)```memo\n(.*?)\n```] in [content]: it starts
    at the first opening fence, and its group, which is lazy, ends at the
    first closing fence after that.  [Some (group, rest)], where [rest]
    follows the match. *)
Definition memoMatch (content : string) : option (string * string) :=
  match cut memoOpen content with
  | Some (_, afterOpen) => cut memoClose afterOpen
  | None => None
  end.

(** [memoRegex.FindAllStringSubmatch(content, -1)]: the groups of the
    successive matches, each searched after the end of the one before. *)
Fixpoint memoMatches (fuel : nat) (content : string) : list string :=
  match fuel with
  | O => []
  | S f =>
      match memoMatch content with
      | Some (group, rest) => group :: memoMatches f rest
      | None => []
      end
  end.

(** The loop over the matches: a memo per match, and the first occurrence
    of the matched text replaced by the reference. *)
Fixpoint extractMemos (now : Z) (groups uuids : list string) (content : string) (memos : list Memo)
  : outcome (list Memo * string * list string) :=
  match groups with
  | [] => Ok (memos, content, uuids)
  | group :: r =>
      match uuids with
      | [] => Err ErrUUIDMemo
      | memoID :: uuids' =>
          let memo := NewMemo now memoID None group in
          let memoRef := "[memo](" ++ memoID ++ ")" in
          extractMemos now r uuids' (Replace1 content (memoOpen ++ group ++ memoClose) memoRef)
                       (memos ++ [memo])
      end
  end.

Definition parseMarkdown (store : Store) (now : Z) (uuids : list string) (content defaultTitle : string)
  : outcome (Task * list Memo) :=
  let '(title, content) :=
    match titleMatch content with
    | Some group => (group, removeTitles content)
    | None => (defaultTitle, content)
    end in
  match extractMemos now (memoMatches (String.length content) content) uuids content [] with
  | Err e => Err e
  | Ok (memos, content, uuids) =>
      let content := TrimSpace content in
      match uuids with
      | [] => Err ErrUUIDTask
      | taskID :: _ =>
          let memoRefs := map Memo.ID memos in
          let task := NewTask now taskID title content memoRefs in
          Ok (set_Order (GetMaxTaskOrder store + 1) task, memos)
      end
  end.

(** The file name without its directories and without its last extension. *)
Definition baseName (filePath : string) : string :=
  let filename := List.last (Split filePath "/") filePath in
  match Split filename "." with
  | [] | [_] => filename
  | parts => Join (removelast parts) "."
  end.

(** [file] is the content [ioutil.ReadFile] returned, if it returned one. *)
Definition ParseFromFile (store : Store) (now : Z) (uuids : list string)
    (file : option string) (filePath : string) : outcome (Task * list Memo) :=
  match file with
  | None => Err ErrReadFile
  | Some content => parseMarkdown store now uuids content (baseName filePath)
  end.

(** [bufio.MaxScanTokenSize], the size to which the buffer of a scanner grows. *)
Definition MaxScanTokenSize : N := 65536.

(** The token [bufio.ScanLines] makes of a line: the line without a
    carriage return at its end. *)
Fixpoint dropCR (line : string) : string :=
  match line with
  | EmptyString => EmptyString
  | String c EmptyString => if Ascii.eqb c (ascii_of_nat 13) then EmptyString else line
  | String c r => String c (dropCR r)
  end.

(** [lines] are the lines of standard input, each without its line
    feed.  The scanner stops with [bufio.ErrTooLong] at a line that does
    not fit into its buffer together with the line feed, or, for a last
    line without one, with one more byte to come: a line of
    [MaxScanTokenSize] bytes or more.  The function then returns the
    error, and nothing of the lines before. *)
Definition ParseFromStdin (store : Store) (now : Z) (uuids : list string) (lines : list string)
  : outcome (Task * list Memo) :=
  if existsb (fun line => (MaxScanTokenSize <=? N.of_nat (String.length line))%N) lines
  then Err ErrReadStdin
  else parseMarkdown store now uuids (String.concat "" (map (fun l => dropCR l ++ newline) lines))
                     "Task from stdin".

(** [SaveTaskAndMemos] without its call of [Save]. *)
Definition addTaskAndMemos (task : Task) (memos : list Memo) (store : Store) : Store :=
  AddTask task (fold_left (fun s memo => AddMemo memo s) memos store).

Fixpoint printMemoIDs (memos : list Memo) : list printed * bool :=
  match memos with
  | [] => ([], true)
  | memo :: r =>
      match slice8 (Memo.ID memo) with
      | None => ([], false)
      | Some id8 => let '(out, ok) := printMemoIDs r in (PrintMemoID id8 :: out, ok)
      end
  end.

Definition executeAddTaskFromMarkdown (now : Z) (uuids : list string) (file : option string)
    (lines : list string) (args : list string) (store : Store) : run :=
  let ingest (parsed : outcome (Task * list Memo)) : run :=
    match parsed with
    | Err e => mkRun [] (Failed (ErrParseMarkdown e)) store store
    | Ok (task, memos) =>
        let store' := addTaskAndMemos task memos store in
        if encodable store' then
          let '(ids, ok) :=
            match memos with
            | [] => ([], true)
            | _ => let '(l, ok) := printMemoIDs memos in (PrintCreatedMemos (length memos) :: l, ok)
            end in
          mkRun (PrintTaskAdded (ID task) :: ids) (if ok then Nil else Panic) store' (written store')
        else mkRun [] (Failed ErrSave) store' store
    end in
  match args with
  | [] => mkRun [] (Failed ErrMarkdownArguments) store store
  | a :: rest =>
      if String.eqb a "-f" then
        match rest with
        | [] => mkRun [] (Failed ErrMissingFilePath) store store
        | filePath :: _ => ingest (ParseFromFile store now uuids file filePath)
        end
      else if String.eqb a "--from-stdin" then ingest (ParseFromStdin store now uuids lines)
      else mkRun [] (Failed (ErrInvalidOption a)) store store
  end.

(** ** [executeAddTask]: the [add task], [push task] and [unshift task] commands *)

(** The loop over [args[1:]] that reads [-d <description>] and [-m <ids>]. *)
Fixpoint parseTaskFlags (args : list string) (description memoRefsStr : string) : string * string :=
  match args with
  | a :: rest =>
      match rest with
      | v :: rest' =>
          if String.eqb a "-d" then parseTaskFlags rest' v memoRefsStr
          else if String.eqb a "-m" then parseTaskFlags rest' description v
          else parseTaskFlags rest description memoRefsStr
      | [] => (description, memoRefsStr)
      end
  | [] => (description, memoRefsStr)
  end.

(** Short identifiers are replaced by the id of the first memo they prefix. *)
Fixpoint resolveMemoRefs (store : Store) (memoRefs : list string) : outcome (list string) :=
  match memoRefs with
  | [] => Ok []
  | refID :: r =>
      let resolved :=
        if (String.length refID <? 36)%nat then
          match scan (fun memo => HasPrefix (Memo.ID memo) refID) (Memos store) with
          | Some (_, memo) => Ok (Memo.ID memo)
          | None => Err (ErrMemoNotFound refID)
          end
        else Ok refID in
      match resolved with
      | Err e => Err e
      | Ok id => match resolveMemoRefs store r with
                 | Ok ids => Ok (id :: ids)
                 | Err e => Err e
                 end
      end
  end.

(** The first 36-byte identifier that names no memo of the store. *)
Definition unknownMemoRef (store : Store) (memoRefs : list string) : option string :=
  find (fun memoID => (String.length memoID =? 36)%nat &&
                      match FindMemoByID store memoID with None => true | Some _ => false end)
       memoRefs.

(** [task.Order] after the [switch mode]. *)
Definition placedOrder (mode : string) (store : Store) : float :=
  if String.eqb mode "add" || String.eqb mode "push" then GetMaxTaskOrder store + 1
  else if String.eqb mode "unshift" then GetMinTaskOrder store - 1
  else 0.

Definition executeAddTask (now : Z) (uuids : list string) (file : option string) (lines : list string)
    (args : list string) (mode : string) (store : Store) : run :=
  match args with
  | [] => mkRun [] (Failed ErrMissingTitle) store store
  | title :: flags =>
      if String.eqb title "-f" || String.eqb title "--from-stdin" then
        executeAddTaskFromMarkdown now uuids file lines args store
      else
        let '(description, memoRefsStr) := parseTaskFlags flags "" "" in
        let memoRefs :=
          if String.eqb memoRefsStr "" then [] else map TrimSpace (Split memoRefsStr ",") in
        match resolveMemoRefs store memoRefs with
        | Err e => mkRun [] (Failed e) store store
        | Ok memoRefs =>
            match uuids with
            | [] => mkRun [] (Failed ErrUUID) store store
            | id :: _ =>
                match unknownMemoRef store memoRefs with
                | Some memoID => mkRun [] (Failed (ErrMemoNotFound memoID)) store store
                | None =>
                    let task := set_Order (placedOrder mode store)
                                          (NewTask now id title description memoRefs) in
                    saveNewAndReport [] (AddTask task store) store [PrintTaskAdded id]
                end
            end
        end
  end.

(** ** [executeShift]: the [shift task] command *)

(** [math.MaxFloat64], the largest finite float64: (2 - 2^-52) * 2^1023. *)
Definition MaxFloat64 : float := 0x1.fffffffffffffp+1023.

(** [for _, task := range store.Tasks { if task.Order < minOrder { firstTask = task; minOrder = task.Order } }],
    at position [i] of the scan. *)
Fixpoint selectFirst (i : nat) (tasks : list Task) (firstTask : option (nat * Task)) (minOrder : float)
  : option (nat * Task) :=
  match tasks with
  | [] => firstTask
  | task :: r =>
      if Order task <? minOrder then selectFirst (S i) r (Some (i, task)) (Order task)
      else selectFirst (S i) r firstTask minOrder
  end.

(** [var firstTask *model.Task; minOrder := math.MaxFloat64] and the scan. *)
Definition findFirstTask (store : Store) : option (nat * Task) :=
  selectFirst 0 (Tasks store) None MaxFloat64.

(** The command is [executePop] with the first task in the place of the
    last one: the same checks, the same errors and the same formats with
    the same arguments. *)
Definition executeShift (now : Z) (line : string) (args : list string) (store : Store) : run :=
  match args with
  | sub :: flags =>
      if negb (String.eqb sub "task") then mkRun [] (Failed ErrPopSubcommand) store store
      else
        let doneFlag := existsb (String.eqb "--done") flags in
        let rmFlag := existsb (String.eqb "--rm") flags in
        let forceFlag := existsb (String.eqb "-f") flags in
        if doneFlag && rmFlag then mkRun [] (Failed ErrPopFlags) store store
        else
          match findFirstTask store with
          | None => mkRun [] (Failed ErrNoTasksFound) store store
          | Some (p, firstTask) =>
              if doneFlag then
                saveAndReport []
                  (set_Tasks (alter (fun t => set_UpdatedAt now (set_Done true t)) p (Tasks store)) store)
                  store [PrintMarkedDone (Title firstTask)]
              else if rmFlag then
                let remove (out : list printed) :=
                  saveAndReport out (removeTask store (ID firstTask)) store
                    [PrintTaskRemoved (Title firstTask)] in
                if negb forceFlag then
                  if confirmed (TrimSpace line) then remove [PrintConfirm (Title firstTask)]
                  else mkRun [PrintConfirm (Title firstTask); PrintRemovalAborted] Nil store store
                else remove []
              else
                let description :=
                  if String.eqb (Description firstTask) "" then []
                  else [PrintDescription (Description firstTask)] in
                let '(memos, ok) :=
                  match MemoRefs firstTask with
                  | [] => ([], true)
                  | refs => let '(lines, ok) := printMemoRefs store refs in (PrintReferencedMemos :: lines, ok)
                  end in
                mkRun (PrintDetails firstTask :: description ++ memos) (if ok then Nil else Panic) store store
          end
  | [] => mkRun [] (Failed ErrPopSubcommand) store store
  end.

(** ** [executeNext], [executePush] and [executeUnshift] *)

(** These commands return errors that the ones above do not have: such
    an error is kept as the text given to [fmt.Errorf]. *)
Inductive returned : Type :=
| Ran (r : run)
| Errorf (message : string).

(** [for _, task := range store.Tasks { if !task.Done && task.Order < minOrder { firstUndoneTask = task; minOrder = task.Order } }],
    at position [i] of the scan. *)
Fixpoint selectUndone (i : nat) (tasks : list Task) (firstUndoneTask : option (nat * Task))
    (minOrder : float) : option (nat * Task) :=
  match tasks with
  | [] => firstUndoneTask
  | task :: r =>
      if negb (Done task) && (Order task <? minOrder)
      then selectUndone (S i) r (Some (i, task)) (Order task)
      else selectUndone (S i) r firstUndoneTask minOrder
  end.

Definition findFirstUndoneTask (store : Store) : option (nat * Task) :=
  selectUndone 0 (Tasks store) None MaxFloat64.

(** The command never saves.  The status line of the details it prints
    is the fixed text of a task that is not done. *)
Definition executeNext (store : Store) : returned :=
  match findFirstUndoneTask store with
  | None => Errorf "no undone tasks found"
  | Some (_, firstUndoneTask) =>
      let description :=
        if String.eqb (Description firstUndoneTask) "" then []
        else [PrintDescription (Description firstUndoneTask)] in
      let '(memos, ok) :=
        match MemoRefs firstUndoneTask with
        | [] => ([], true)
        | refs => let '(lines, ok) := printMemoRefs store refs in (PrintReferencedMemos :: lines, ok)
        end in
      Ran (mkRun (PrintDetails (set_Done false firstUndoneTask) :: description ++ memos)
                 (if ok then Nil else Panic) store store)
  end.



(** ** [executeFlattask]: the [flattask] command *)

(** What the command leaves: the text on standard output, the error it
    returned (its message), a run-time panic (a slice expression out of
    range), or the end of the process inside [flag.Parse]. *)
Inductive flattened : Type :=
| Flattened (text : string)
| FlattaskError (message : string)
| FlattaskPanic
| FlattaskExit.

(** The part of the document for one referenced memo; [None] when
    [memoID[:8]] panicked. *)
Definition memoSection (store : Store) (memoID : string) : option string :=
  match FindMemoByID store memoID with
  | Some (_, memo) =>
      let heading :=
        match Memo.Title memo with
        | Some title => Some ("### " ++ title ++ newline ++ newline)
        | None => option_map (fun id8 => "### Memo " ++ id8 ++ newline ++ newline) (slice8 memoID)
        end in
      option_map (fun heading => heading ++ Memo.Content memo ++ newline ++ newline) heading
  | None =>
      option_map (fun id8 => "### Memo " ++ id8 ++ " (not found)" ++ newline ++ newline) (slice8 memoID)
  end.

(** [for _, memoID := range task.MemoRefs { ... }] *)
Fixpoint memoSections (store : Store) (memoRefs : list string) : option string :=
  match memoRefs with
  | [] => Some EmptyString
  | memoID :: r =>
      match memoSection store memoID with
      | None => None
      | Some section => option_map (fun sections => section ++ sections) (memoSections store r)
      end
  end.

(** [doc.String()] for the task the command found. *)
Definition flattaskDocument (store : Store) (task : Task) : option string :=
  let title := "# " ++ Title task ++ newline ++ newline in
  let status :=
    (if Done task then "**Status:** Completed" else "**Status:** Not completed") ++ newline ++ newline in
  let description :=
    if String.eqb (Description task) "" then EmptyString
    else "## Description" ++ newline ++ newline ++ Description task ++ newline ++ newline in
  match MemoRefs task with
  | [] => Some (title ++ status ++ description)
  | memoRefs =>
      option_map (fun sections =>
                    title ++ status ++ description ++ "## Referenced Memos" ++ newline ++ newline ++ sections)
                 (memoSections store memoRefs)
  end.

Section Flattask.

(** [flattaskCmd.Parse(args)] for a flag set without flags that was made
    with [flag.ExitOnError]: the arguments [flattaskCmd.Args()] it leaves,
    or [None] when it ended the process. *)
Variable Parse : list string -> option (list string).

Definition executeFlattask (args : list string) (store : Store) : flattened :=
  match Parse args with
  | None => FlattaskExit
  | Some [] => FlattaskError "missing task ID"
  | Some (taskID :: _) =>
      match lookupTask store taskID with
      | None => FlattaskError ("no task found with ID: " ++ taskID)
      | Some (_, task) =>
          match flattaskDocument store task with
          | Some doc => Flattened (doc ++ newline)
          | None => FlattaskPanic
          end
      end
  end.

End Flattask.

(** ** Package [utils] *)

(** The digit that [%x] prints for a value below 16. *)
Definition hexDigit (n : Z) : ascii :=
  match String.get (Z.to_nat n) "0123456789abcdef" with
  | Some c => c
  | None => "0"%char
  end.

(** [fmt.Sprintf("%x", b)] for a byte slice [b]: two digits per byte. *)
Fixpoint hex (b : list Z) : string :=
  match b with
  | [] => EmptyString
  | x :: r => String (hexDigit (x / 16)) (String (hexDigit (x mod 16)) (hex r))
  end.

(** [b[i:j]] for [i <= j <= len(b)] *)
Definition slice {A : Type} (i j : nat) (b : list A) : list A := take (j - i) (drop i b).

(** [random] holds the 16 bytes that [rand.Read] delivered, when it
    returned no error; a byte is an integer from 0 to 255. *)
Definition GenerateUUID (random : option (list Z)) : option string :=
  match random with
  | None => None
  | Some uuid =>
      let uuid := alter (fun b => Z.lor (Z.land b 0x0f) 0x40) 6%nat uuid in
      let uuid := alter (fun b => Z.lor (Z.land b 0x3f) 0x80) 8%nat uuid in
      Some (hex (slice 0 4 uuid) ++ "-" ++ hex (slice 4 6 uuid) ++ "-" ++ hex (slice 6 8 uuid) ++ "-" ++
            hex (slice 8 10 uuid) ++ "-" ++ hex (slice 10 16 uuid))
  end.

(** ** Vocabulary of the properties *)

(** A float64 that takes part in comparisons: every value but NaN.  The
    data file is JSON, which has no notation for NaN or the infinities,
    so the orders of a decoded store are ordered (and finite). *)
Definition ordered (x : float) : Prop := is_nan x = false.

Definition comparable (tasks : list Task) : Prop :=
  Forall (fun task => ordered (Order task)) tasks.

(** The results of [SFcompare] that mean "at most". *)
Definition below (c : comparison) : bool := match c with Gt => false | _ => true end.

(** The result of comparing [a] with [c] from those of [a] with [b] and
    of [b] with [c], when both are [below]. *)
Definition weakest (c1 c2 : comparison) : comparison :=
  match c1, c2 with Eq, Eq => Eq | _, _ => Lt end.

(** Ascending by [Order]: every task is at most every later one. *)
Definition ascending (tasks : list Task) : Prop :=
  StronglySorted (fun a b => (Order a <=? Order b) = true) tasks.

(** [output] keeps the tasks of equal order in the sequence they have in [input]. *)
Definition stable (input output : list Task) : Prop :=
  forall o : float,
    List.filter (fun task => Order task =? o) output = List.filter (fun task => Order task =? o) input.

Definition uniqueIDs (tasks : list Task) : Prop := NoDup (map ID tasks).

(** The reading of "the moved task is excluded from the neighbours": it is
    neither the predecessor nor the successor that the lookup selects. *)
Definition excludesMover (s : Store) (mover target : Task) : Prop :=
  prevTask (sortTasksByOrder (Tasks s)) (ID target) <> Some mover /\
  nextTask (sortTasksByOrder (Tasks s)) (ID target) <> Some mover.

(** A text on one line. *)
Fixpoint oneLine (s : string) : bool :=
  match s with
  | EmptyString => true
  | String c r => negb (Ascii.eqb c lf) && oneLine r
  end.




(** The text in which [parseMarkdown] looks for memo blocks: the content
    without its headings, when it has one. *)
Definition withoutTitles (content : string) : string :=
  match titleMatch content with
  | Some _ => removeTitles content
  | None => content
  end.

(** A text without the byte [sep]. *)
Fixpoint without (sep : ascii) (s : string) : bool :=
  match s with
  | EmptyString => true
  | String c r => negb (Ascii.eqb c sep) && without sep r
  end.

(** ** The sort as passes over a list

    [sortTasksByOrder] is proved equal to [passes] below. *)

(** One pass of the inner loop, on the task at position [i] and the
    tasks after it: the running task is exchanged with every later task
    of smaller order. *)
Fixpoint pass (x : Task) (rest : list Task) : Task * list Task :=
  match rest with
  | [] => (x, [])
  | y :: r =>
      if Order y <? Order x then let '(m, r') := pass y r in (m, x :: r')
      else let '(m, r') := pass x r in (m, y :: r')
  end.

(** The outer loop: a pass from every position in turn. *)
Fixpoint passes (fuel : nat) (tasks : list Task) : list Task :=
  match fuel, tasks with
  | S f, x :: rest => let '(m, r) := pass x rest in m :: passes f r
  | _, _ => tasks
  end.

(** ** Inputs the properties are evaluated on *)

(** A task with nothing but an id, an order and memo references. *)
Definition plainTask (id : string) (order : float) (memoRefs : list string) : Task :=
  mkTask id id "" order false memoRefs 0 0.

(** A [strconv.ParseFloat] that accepts nothing. *)
Definition noParse : string -> option float := fun _ => None.

(** One task whose order is 2^53. *)
Definition bigStore : Store := mkStore 1 [plainTask "a" 9007199254740992 []] [].

(** One task with a negative order: what [unshift task] leaves in an empty store. *)
Definition negativeStore : Store := mkStore 1 [plainTask "a" (-1) []] [].

Definition smallStore : Store := mkStore 1 [plainTask "a" 1 []; plainTask "b" 2 []] [].

(** Two tasks of order 2.0 followed by one of order 1.0. *)
Definition tiedTasks : list Task := [plainTask "a" 2 []; plainTask "b" 2 []; plainTask "c" 1 []].

(** Three tasks in a row; [m] is the one that is moved. *)
Definition chainStore : Store :=
  mkStore 1 [plainTask "x" 1 []; plainTask "m" 2 []; plainTask "t" 3 []] [].

(** Two neighbours [a] and [b] and a task [m] away from them. *)
Definition spacedStore : Store :=
  mkStore 1 [plainTask "a" 1 []; plainTask "b" 2 []; plainTask "m" 5 []] [].

(** The same with a task [c] that has the order of [a]. *)
Definition tieStore : Store :=
  mkStore 1 [plainTask "a" 1 []; plainTask "c" 1 []; plainTask "b" 2 []; plainTask "m" 5 []] [].

(** Identifiers of the length that [utils.GenerateUUID] produces. *)
Definition memoM : string := "0b5c3d1e-7a44-4f0e-9c1d-2f6a8e9b1c00".
Definition taskP : string := "5e0f1c2a-93b7-4d58-8a6e-41c7d2b9a001".
Definition taskQ : string := "a47d9e10-2c3b-4f6a-b1d8-0e5f7c8d9002".

(** A memo that task P refers to twice and task Q once. *)
Definition linkedStore : Store :=
  mkStore 1 [plainTask taskP 1 [memoM; memoM]; plainTask taskQ 2 [memoM]]
            [Memo.mk memoM None "note" 0 0].

(** The document with heading [title] and one memo block of body [body]. *)
Definition memoDocument (title body : string) : string :=
  ("# " ++ title ++ newline ++ memoOpen ++ body ++ memoClose)%string.

(** A heading, a line, a second heading and a line. *)
Definition twoHeadings : string :=
  ("# A" ++ newline ++ "x" ++ newline ++ "# B" ++ newline ++ "y")%string.

(** One task at [math.MaxFloat64], where [mv] can put it. *)
Definition farStore : Store := mkStore 1 [plainTask "a" MaxFloat64 []] [].



(** Sixteen bytes of a random source. *)
Definition randomBytes : list Z := [18; 52; 86; 120; 154; 188; 222; 240; 1; 35; 69; 103; 137; 171; 205; 239]%Z.

(** * Properties *)

Local Open Scope list_scope.

(** ** The order of binary64 values *)

Section SpecOrder.

Implicit Types a b c : spec_float.

(** Case analysis on the signs, then on the exponents and mantissas that
    [SFcompare] compares lexicographically. *)
Ltac lexicographic :=
  repeat match goal with s : bool |- _ => destruct s end;
  simpl; try discriminate; try reflexivity;
  repeat match goal with
         | |- context [PosDef.Pos.compare_cont Eq ?p ?q] =>
             change (PosDef.Pos.compare_cont Eq p q) with (Pos.compare p q)
         end;
  repeat match goal with
         | |- context [Z.compare ?x ?y] => destruct (Z.compare_spec x y)
         end;
  try discriminate; try reflexivity; try lia;
  repeat match goal with
         | |- context [Pos.compare ?p ?q] => destruct (Pos.compare_spec p q)
         end;
  simpl; try discriminate; try reflexivity; try lia.

Lemma SFcompare_nan a b : SFcompare a b = None <-> a = S754_nan \/ b = S754_nan.
Proof.
  destruct a, b; simpl; split; intros H; try discriminate; auto; destruct H; discriminate.
Qed.

Lemma SFcompare_refl a : a <> S754_nan -> SFcompare a a = Some Eq.
Proof. destruct a; intros H; try congruence; lexicographic. Qed.

Lemma SFcompare_swap a b : SFcompare b a = option_map CompOpp (SFcompare a b).
Proof. destruct a, b; lexicographic. Qed.

Lemma SFcompare_chain a b c (c1 c2 : comparison) :
  SFcompare a b = Some c1 -> SFcompare b c = Some c2 ->
  below c1 = true -> below c2 = true -> SFcompare a c = Some (weakest c1 c2).
Proof.
  intros Hab Hbc B1 B2. revert Hab Hbc.
  destruct c1, c2; try discriminate; clear B1 B2; destruct a, b, c; lexicographic.
Qed.

End SpecOrder.

Section FloatOrder.
Implicit Types x y z : float.

Lemma f64_ltb_compare x y : (x <? y) = true <-> SFcompare (Prim2SF x) (Prim2SF y) = Some Lt.
Proof.
  rewrite FloatAxioms.ltb_spec. unfold SFltb.
  destruct (SFcompare (Prim2SF x) (Prim2SF y)) as [[]|]; split; congruence.
Qed.

Lemma f64_leb_compare x y :
  (x <=? y) = true <-> exists c, SFcompare (Prim2SF x) (Prim2SF y) = Some c /\ below c = true.
Proof.
  rewrite FloatAxioms.leb_spec. unfold SFleb.
  destruct (SFcompare (Prim2SF x) (Prim2SF y)) as [[]|]; split; try discriminate;
    try (intros _; eexists; split; reflexivity); try reflexivity.
  - intros [c [[= <-] H]]. discriminate.
  - intros [c [[=] _]].
Qed.

Lemma f64_ordered_spec x : ordered x <-> Prim2SF x <> S754_nan.
Proof.
  unfold ordered, is_nan. rewrite FloatAxioms.eqb_spec. unfold SFeqb. split.
  - intros H E. rewrite E in H. discriminate.
  - intros H. rewrite SFcompare_refl by assumption. reflexivity.
Qed.

Lemma f64_compare_ordered x y : ordered x -> ordered y ->
  exists c, SFcompare (Prim2SF x) (Prim2SF y) = Some c.
Proof.
  rewrite !f64_ordered_spec. intros Hx Hy.
  destruct (SFcompare (Prim2SF x) (Prim2SF y)) as [c|] eqn:E; [eauto|].
  apply SFcompare_nan in E. tauto.
Qed.

Lemma f64_ltb_ordered x y : (x <? y) = true -> ordered x /\ ordered y.
Proof.
  rewrite f64_ltb_compare, !f64_ordered_spec. intros H.
  split; intros E; rewrite E in H; [|destruct (Prim2SF x)]; discriminate.
Qed.

Lemma f64_leb_ordered x y : (x <=? y) = true -> ordered x /\ ordered y.
Proof.
  rewrite f64_leb_compare, !f64_ordered_spec. intros [c [H _]].
  split; intros E; rewrite E in H; [|destruct (Prim2SF x)]; discriminate.
Qed.

Lemma f64_leb_refl x : ordered x -> (x <=? x) = true.
Proof.
  rewrite f64_ordered_spec, f64_leb_compare. intros H. exists Eq. split; [|reflexivity].
  apply SFcompare_refl. assumption.
Qed.

Lemma f64_ltb_irrefl x : (x <? x) = false.
Proof.
  destruct (x <? x) eqn:E; [|reflexivity].
  pose proof (f64_ltb_ordered _ _ E) as [Hx _].
  apply f64_ltb_compare in E. apply f64_ordered_spec in Hx.
  rewrite SFcompare_refl in E by assumption. discriminate.
Qed.

Lemma f64_ltb_leb x y : (x <? y) = true -> (x <=? y) = true.
Proof. rewrite f64_ltb_compare, f64_leb_compare. intros H. exists Lt. auto. Qed.

Lemma f64_ltb_trans x y z : (x <? y) = true -> (y <? z) = true -> (x <? z) = true.
Proof.
  rewrite !f64_ltb_compare. intros H1 H2.
  exact (SFcompare_chain _ _ _ Lt Lt H1 H2 eq_refl eq_refl).
Qed.

Lemma f64_leb_trans x y z : (x <=? y) = true -> (y <=? z) = true -> (x <=? z) = true.
Proof.
  rewrite !f64_leb_compare. intros [c1 [H1 B1]] [c2 [H2 B2]].
  exists (weakest c1 c2). split.
  - eapply SFcompare_chain; eassumption.
  - destruct c1, c2; reflexivity.
Qed.

Lemma f64_leb_ltb_trans x y z : (x <=? y) = true -> (y <? z) = true -> (x <? z) = true.
Proof.
  rewrite f64_leb_compare, !f64_ltb_compare. intros [c1 [H1 B1]] H2.
  rewrite (SFcompare_chain _ _ _ c1 Lt H1 H2 B1 eq_refl). destruct c1; reflexivity.
Qed.

Lemma f64_ltb_leb_trans x y z : (x <? y) = true -> (y <=? z) = true -> (x <? z) = true.
Proof.
  rewrite f64_leb_compare, !f64_ltb_compare. intros H1 [c2 [H2 B2]].
  rewrite (SFcompare_chain _ _ _ Lt c2 H1 H2 eq_refl B2). destruct c2; reflexivity.
Qed.

(** Go's [!(a > b)] on ordered values is [a <= b]. *)
Lemma f64_not_ltb_leb x y : ordered x -> ordered y -> (y <? x) = false -> (x <=? y) = true.
Proof.
  intros Hx Hy H. destruct (f64_compare_ordered x y Hx Hy) as [c Hc].
  apply f64_leb_compare. exists c. split; [assumption|].
  destruct c; try reflexivity.
  assert (E : (y <? x) = true).
  { apply f64_ltb_compare. rewrite SFcompare_swap, Hc. reflexivity. }
  congruence.
Qed.

Lemma f64_ltb_asym x y : (x <? y) = true -> (y <? x) = false.
Proof.
  intros H. destruct (y <? x) eqn:E; [|reflexivity].
  pose proof (f64_ltb_trans _ _ _ H E) as F. rewrite f64_ltb_irrefl in F. discriminate.
Qed.

Lemma f64_leb_not_ltb x y : (x <=? y) = true -> (y <? x) = false.
Proof.
  intros H. destruct (y <? x) eqn:E; [|reflexivity].
  pose proof (f64_leb_ltb_trans _ _ _ H E) as F. rewrite f64_ltb_irrefl in F. discriminate.
Qed.

Lemma f64_eqb_compare x y : (x =? y) = true <-> SFcompare (Prim2SF x) (Prim2SF y) = Some Eq.
Proof.
  rewrite FloatAxioms.eqb_spec. unfold SFeqb.
  destruct (SFcompare (Prim2SF x) (Prim2SF y)) as [[]|]; split; congruence.
Qed.

Lemma f64_eqb_leb x y : (x =? y) = true -> (x <=? y) = true.
Proof. rewrite f64_eqb_compare, f64_leb_compare. intros H. exists Eq. auto. Qed.

Lemma f64_eqb_sym x y : (x =? y) = true -> (y =? x) = true.
Proof. rewrite !f64_eqb_compare. intros H. rewrite SFcompare_swap, H. reflexivity. Qed.

Lemma f64_leb_antisym x y : (x <=? y) = true -> (y <=? x) = true -> (x =? y) = true.
Proof.
  rewrite !f64_leb_compare, f64_eqb_compare. intros [c1 [H1 B1]] [c2 [H2 B2]].
  rewrite SFcompare_swap, H1 in H2. injection H2 as <-.
  destruct c1; try discriminate. assumption.
Qed.

End FloatOrder.

Section FloatEquality.
Implicit Types x y a b : float.

(** Two values that compare equal are the same value, or both are zeros. *)
Lemma f64_eqb_cases x y :
  (x =? y) = true ->
  x = y \/ exists s1 s2, Prim2SF x = S754_zero s1 /\ Prim2SF y = S754_zero s2.
Proof.
  rewrite f64_eqb_compare. intros H.
  destruct (Prim2SF x) as [sx|sx| |sx mx ex] eqn:Ex, (Prim2SF y) as [sy|sy| |sy my ey] eqn:Ey;
    simpl in H; try discriminate;
    try (destruct sx; discriminate); try (destruct sy; discriminate).
  - right. eauto.
  - left. apply Prim2SF_inj. rewrite Ex, Ey. destruct sx, sy; (discriminate || reflexivity).
  - left. apply Prim2SF_inj. rewrite Ex, Ey.
    change (PosDef.Pos.compare_cont Eq mx my) with (Pos.compare mx my) in H.
    destruct sx, sy; try discriminate;
      destruct (Z.compare_spec ex ey); try discriminate;
      destruct (Pos.compare_spec mx my); try discriminate; subst; reflexivity.
Qed.

Lemma f64_add_eqb_r a x b : (a <? b) = true -> (x =? b) = true -> a + x = a + b.
Proof.
  intros Hlt Heq. destruct (f64_eqb_cases _ _ Heq) as [-> | (s1 & s2 & Ex & Eb)]; [reflexivity|].
  apply Prim2SF_inj. rewrite !add_spec, Ex, Eb.
  apply f64_ltb_compare in Hlt. rewrite Eb in Hlt.
  destruct (Prim2SF a) as [sa|sa| |sa ma ea]; simpl in Hlt; try discriminate; reflexivity.
Qed.

Lemma f64_add_eqb_l x a b : (a <? b) = true -> (x =? a) = true -> x + b = a + b.
Proof.
  intros Hlt Heq. destruct (f64_eqb_cases _ _ Heq) as [-> | (s1 & s2 & Ex & Ea)]; [reflexivity|].
  apply Prim2SF_inj. rewrite !add_spec, Ex, Ea.
  apply f64_ltb_compare in Hlt. rewrite Ea in Hlt.
  destruct (Prim2SF b) as [sb|sb| |sb mb eb]; simpl in Hlt; try discriminate; reflexivity.
Qed.

Lemma f64_leb_neq_ltb x y : (x <=? y) = true -> (y =? x) = false -> (x <? y) = true.
Proof.
  intros Hle Hne. destruct (x <? y) eqn:E; [reflexivity|].
  destruct (f64_leb_ordered _ _ Hle) as [Hx Hy].
  pose proof (f64_not_ltb_leb y x Hy Hx E) as Hge.
  rewrite (f64_leb_antisym _ _ Hge Hle) in Hne. discriminate.
Qed.

End FloatEquality.

(** ** [GetMaxTaskOrder], [GetMinTaskOrder] and the order of a new task *)

Section Extremes.

Implicit Types (tasks : list Task) (s : Store).

Lemma fold_max_upper tasks : forall m0,
  ordered m0 -> comparable tasks ->
  let m := fold_left (fun maxOrder task => if maxOrder <? Order task then Order task else maxOrder) tasks m0 in
  ordered m /\ (m0 <=? m) = true /\ Forall (fun task => (Order task <=? m) = true) tasks.
Proof.
  induction tasks as [|t r IH]; intros m0 Hm Hc; simpl.
  - split; [assumption|]. split; [apply f64_leb_refl; assumption|constructor].
  - inversion Hc as [|? ? Ht Hr]; subst.
    destruct (m0 <? Order t) eqn:E.
    + destruct (IH (Order t) Ht Hr) as (Ho & Hle & Hall).
      split; [assumption|]. split.
      * eapply f64_leb_trans; [apply f64_ltb_leb; eassumption|assumption].
      * constructor; assumption.
    + destruct (IH m0 Hm Hr) as (Ho & Hle & Hall).
      split; [assumption|]. split; [assumption|].
      constructor; [|assumption].
      eapply f64_leb_trans; [|eassumption]. apply f64_not_ltb_leb; assumption.
Qed.

Lemma fold_min_lower tasks : forall m0,
  ordered m0 -> comparable tasks ->
  let m := fold_left (fun minOrder task => if Order task <? minOrder then Order task else minOrder) tasks m0 in
  ordered m /\ (m <=? m0) = true /\ Forall (fun task => (m <=? Order task) = true) tasks.
Proof.
  induction tasks as [|t r IH]; intros m0 Hm Hc; simpl.
  - split; [assumption|]. split; [apply f64_leb_refl; assumption|constructor].
  - inversion Hc as [|? ? Ht Hr]; subst.
    destruct (Order t <? m0) eqn:E.
    + destruct (IH (Order t) Ht Hr) as (Ho & Hle & Hall).
      split; [assumption|]. split.
      * eapply f64_leb_trans; [eassumption|apply f64_ltb_leb; assumption].
      * constructor; assumption.
    + destruct (IH m0 Hm Hr) as (Ho & Hle & Hall).
      split; [assumption|]. split; [assumption|].
      constructor; [|assumption].
      eapply f64_leb_trans; [eassumption|]. apply f64_not_ltb_leb; assumption.
Qed.

Lemma GetMaxTaskOrder_upper s :
  comparable (Tasks s) -> Forall (fun task => (Order task <=? GetMaxTaskOrder s) = true) (Tasks s).
Proof. intros Hc. apply (fold_max_upper (Tasks s) 0); [reflexivity|assumption]. Qed.

Lemma GetMinTaskOrder_lower s :
  comparable (Tasks s) -> Forall (fun task => (GetMinTaskOrder s <=? Order task) = true) (Tasks s).
Proof.
  intros Hc. unfold GetMinTaskOrder. destruct (Tasks s) as [|t0 r] eqn:E; [constructor|].
  apply (fold_min_lower (t0 :: r) (Order t0)); [|assumption].
  inversion Hc; assumption.
Qed.

(** The scan returns its seed or the order of a task above the seed. *)
Lemma fold_max_attained tasks : forall m0,
  let m := fold_left (fun maxOrder task => if maxOrder <? Order task then Order task else maxOrder) tasks m0 in
  m = m0 \/ exists t, In t tasks /\ m = Order t /\ (m0 <? Order t) = true.
Proof.
  induction tasks as [|t r IH]; intros m0; simpl; [left; reflexivity|].
  destruct (m0 <? Order t) eqn:E.
  - destruct (IH (Order t)) as [-> | (u & Hu & -> & Hlt)].
    + right. exists t. auto.
    + right. exists u. split; [right; exact Hu|]. split; [reflexivity|].
      eapply f64_ltb_trans; eassumption.
  - destruct (IH m0) as [-> | (u & Hu & -> & Hlt)].
    + left. reflexivity.
    + right. exists u. auto.
Qed.

(** On a store with a task of positive order, [GetMaxTaskOrder] is the
    order of a task of maximal order. *)
Lemma GetMaxTaskOrder_attained s :
  comparable (Tasks s) ->
  (exists t, In t (Tasks s) /\ (0 <? Order t) = true) ->
  exists t, In t (Tasks s) /\ GetMaxTaskOrder s = Order t /\
            Forall (fun u => (Order u <=? Order t) = true) (Tasks s).
Proof.
  intros Hc (t & Ht & Hpos).
  pose proof (GetMaxTaskOrder_upper s Hc) as Hall.
  destruct (fold_max_attained (Tasks s) 0) as [E | (u & Hu & E & _)].
  - exfalso. rewrite Forall_forall in Hall. apply list_elem_of_In in Ht.
    specialize (Hall t Ht). unfold GetMaxTaskOrder in Hall. rewrite E in Hall.
    apply f64_leb_not_ltb in Hall. congruence.
  - exists u. split; [exact Hu|]. split; [exact E|].
    unfold GetMaxTaskOrder in Hall. rewrite E in Hall. exact Hall.
Qed.

(** On the empty store the first appended task gets 1.0 and the first
    prepended task -1.0. *)
Lemma placedOrder_empty s :
  Tasks s = [] -> placedOrder "add" s = 1 /\ placedOrder "push" s = 1 /\ placedOrder "unshift" s = -1.
Proof.
  intros H. unfold placedOrder, GetMaxTaskOrder, GetMinTaskOrder. rewrite H. repeat split; reflexivity.
Qed.

End Extremes.

(** ** The order of a new task *)

Lemma fold_AddMemo memos : forall store,
  fold_left (fun s memo => AddMemo memo s) memos store = set_Memos (Memos store ++ memos) store.
Proof.
  induction memos as [|m memos IH]; intros store; simpl.
  - rewrite app_nil_r. destruct store; reflexivity.
  - rewrite IH. unfold AddMemo, set_Memos. simpl. rewrite <- app_assoc. reflexivity.
Qed.

Lemma addTaskAndMemos_spec task memos store :
  addTaskAndMemos task memos store =
  mkStore (Version store) (Tasks store ++ [task]) (Memos store ++ memos).
Proof. unfold addTaskAndMemos. rewrite fold_AddMemo. reflexivity. Qed.

(** The ingestion either fails before it touches the store or goes on
    with what [parseMarkdown] returned for some content. *)
Lemma ingested_parsed now uuids file lines args store :
  (exists e, executeAddTaskFromMarkdown now uuids file lines args store = mkRun [] (Failed e) store store) \/
  exists content defaultTitle task memos,
    parseMarkdown store now uuids content defaultTitle = Ok (task, memos) /\
    executeAddTaskFromMarkdown now uuids file lines args store =
    let store' := addTaskAndMemos task memos store in
    if encodable store' then
      let '(ids, ok) :=
        match memos with
        | [] => ([], true)
        | _ => let '(l, ok) := printMemoIDs memos in (PrintCreatedMemos (length memos) :: l, ok)
        end in
      mkRun (PrintTaskAdded (ID task) :: ids) (if ok then Nil else Panic) store' (written store')
    else mkRun [] (Failed ErrSave) store' store.
Proof.
  unfold executeAddTaskFromMarkdown.
  destruct args as [|a rest]; [left; eexists; reflexivity|].
  destruct (String.eqb a "-f").
  - destruct rest as [|filePath rest]; [left; eexists; reflexivity|].
    unfold ParseFromFile. destruct file as [content|]; [|left; eexists; reflexivity].
    destruct (parseMarkdown store now uuids content (baseName filePath)) as [[task memos]|e] eqn:E;
      [|left; eexists; reflexivity].
    right. exists content, (baseName filePath), task, memos. split; [exact E|reflexivity].
  - destruct (String.eqb a "--from-stdin"); [|left; eexists; reflexivity].
    unfold ParseFromStdin.
    destruct (existsb _ lines); [left; eexists; reflexivity|].
    destruct (parseMarkdown store now uuids _ "Task from stdin") as [[task memos]|e] eqn:E;
      [|left; eexists; reflexivity].
    right. do 2 eexists. exists task, memos. split; [exact E|reflexivity].
Qed.

Lemma parseMarkdown_Order store now uuids content defaultTitle task memos :
  parseMarkdown store now uuids content defaultTitle = Ok (task, memos) ->
  Order task = GetMaxTaskOrder store + 1.
Proof.
  unfold parseMarkdown. destruct (titleMatch content);
    (destruct (extractMemos now _ uuids _ []) as [[[memos' description] uuids']|e]; [|discriminate]);
    (destruct uuids'; [discriminate|]); intros [= <- <-]; reflexivity.
Qed.

(** A task made from Markdown is appended with the order [GetMaxTaskOrder + 1.0]. *)
Lemma executeAddTaskFromMarkdown_places now uuids file lines args s :
  result (executeAddTaskFromMarkdown now uuids file lines args s) = Nil ->
  exists task, Order task = GetMaxTaskOrder s + 1 /\
               Tasks (mem (executeAddTaskFromMarkdown now uuids file lines args s)) = Tasks s ++ [task].
Proof.
  destruct (ingested_parsed now uuids file lines args s)
    as [[e Hr]|(content & defaultTitle & task & memos & Hparse & Hr)];
    rewrite Hr; [discriminate|]. clear Hr.
  cbv zeta. rewrite addTaskAndMemos_spec.
  destruct (encodable _); [|discriminate].
  destruct (match memos with
            | [] => ([], true)
            | _ => let '(l, ok) := printMemoIDs memos in (PrintCreatedMemos (length memos) :: l, ok)
            end) as [ids ok].
  intros _. exists task. split; [exact (parseMarkdown_Order _ _ _ _ _ _ _ Hparse)|reflexivity].
Qed.

(** A successful [add task], [push task] or [unshift task] appends one
    task, whose order is the one the [switch mode] computes. *)
Lemma executeAddTask_places now uuids file lines title flags mode s :
  title <> "-f" -> title <> "--from-stdin" ->
  result (executeAddTask now uuids file lines (title :: flags) mode s) = Nil ->
  exists task, Order task = placedOrder mode s /\
               mem (executeAddTask now uuids file lines (title :: flags) mode s) = AddTask task s.
Proof.
  intros H1 H2. unfold executeAddTask.
  apply String.eqb_neq in H1, H2. rewrite H1, H2. simpl orb. cbv iota.
  destruct (parseTaskFlags flags "" "") as [description memoRefsStr].
  destruct (resolveMemoRefs s _) as [memoRefs|e]; [|discriminate].
  destruct uuids as [|id uuids]; [discriminate|].
  destruct (unknownMemoRef s memoRefs); [discriminate|].
  unfold saveNewAndReport. destruct (encodable _); [|discriminate].
  intros _. eexists. split; [|reflexivity]. reflexivity.
Qed.

(** With [-f] or [--from-stdin] in the place of the title the command is
    the ingestion, whatever the mode. *)
Lemma executeAddTask_ingests now uuids file lines title flags mode s :
  title = "-f" \/ title = "--from-stdin" ->
  executeAddTask now uuids file lines (title :: flags) mode s =
  executeAddTaskFromMarkdown now uuids file lines (title :: flags) s.
Proof. intros [-> | ->]; reflexivity. Qed.

(** C9 (amended).  A command [add task], [push task] or [unshift task]
    that returns nil appends one task.  Its order is
    [GetMaxTaskOrder + 1.0] when the mode is add or push, and also when
    the task is made from Markdown ([-f] or [--from-stdin] in the place
    of the title), in every mode, unshift included; on orders without
    NaN this order is strictly greater than the order of every existing
    task whenever the addition is not absorbed by float64 rounding, that
    is, whenever the sum is greater than [GetMaxTaskOrder] itself.  Its
    order is [GetMinTaskOrder - 1.0] when the mode is unshift and a
    title is given; on orders without NaN this order is strictly less
    than every existing order whenever the difference is less than
    [GetMinTaskOrder] itself. *)
Theorem append_prepend_strict now uuids file lines title flags mode s :
  result (executeAddTask now uuids file lines (title :: flags) mode s) = Nil ->
  exists task,
    Tasks (mem (executeAddTask now uuids file lines (title :: flags) mode s)) = (Tasks s ++ [task])%list /\
    (title = "-f" \/ title = "--from-stdin" \/ mode = "add" \/ mode = "push" ->
       Order task = GetMaxTaskOrder s + 1 /\
       (comparable (Tasks s) -> (GetMaxTaskOrder s <? GetMaxTaskOrder s + 1) = true ->
        Forall (fun t => (Order t <? Order task) = true) (Tasks s))) /\
    (title <> "-f" -> title <> "--from-stdin" -> mode = "unshift" ->
       Order task = GetMinTaskOrder s - 1 /\
       (comparable (Tasks s) -> (GetMinTaskOrder s - 1 <? GetMinTaskOrder s) = true ->
        Forall (fun t => (Order task <? Order t) = true) (Tasks s))).
Proof.
  intros Hr.
  assert (forall task, Order task = GetMaxTaskOrder s + 1 ->
            comparable (Tasks s) -> (GetMaxTaskOrder s <? GetMaxTaskOrder s + 1) = true ->
            Forall (fun t => (Order t <? Order task) = true) (Tasks s)) as Habove.
  { intros task E Hc Hstep. rewrite E.
    eapply Forall_impl; [apply GetMaxTaskOrder_upper; assumption|].
    intros t Ht. simpl in Ht. eapply f64_leb_ltb_trans; eassumption. }
  destruct (String.eqb_spec title "-f") as [H1|H1];
    [|destruct (String.eqb_spec title "--from-stdin") as [H2|H2]].
  - rewrite (executeAddTask_ingests now uuids file lines title flags mode s (or_introl H1)) in *.
    destruct (executeAddTaskFromMarkdown_places _ _ _ _ _ _ Hr) as (task & Ho & Hm).
    exists task. split; [exact Hm|]. split; [|congruence].
    intros _. split; [exact Ho|apply Habove, Ho].
  - rewrite (executeAddTask_ingests now uuids file lines title flags mode s (or_intror H2)) in *.
    destruct (executeAddTaskFromMarkdown_places _ _ _ _ _ _ Hr) as (task & Ho & Hm).
    exists task. split; [exact Hm|]. split; [|congruence].
    intros _. split; [exact Ho|apply Habove, Ho].
  - destruct (executeAddTask_places _ _ _ _ _ _ _ _ H1 H2 Hr) as (task & Ho & Hm).
    exists task. rewrite Hm. split; [reflexivity|]. split.
    + intros [Ht|[Ht|Hmode]]; [congruence..|].
      assert (E : Order task = GetMaxTaskOrder s + 1).
      { rewrite Ho. unfold placedOrder. destruct Hmode as [-> | ->]; reflexivity. }
      split; [exact E|apply Habove, E].
    + intros _ _ ->.
      assert (E : Order task = GetMinTaskOrder s - 1) by (rewrite Ho; reflexivity).
      split; [exact E|]. intros Hc Hstep. rewrite E.
      eapply Forall_impl; [apply GetMinTaskOrder_lower; assumption|].
      intros t Ht. simpl in Ht. eapply f64_ltb_leb_trans; eassumption.
Qed.

(** The theorem at the store with orders 1 and 2: the task appended by
    [add task t] gets 3, and so does the task that [unshift task
    --from-stdin] makes of one line, both above the existing orders;
    the task prepended by [unshift task t] gets 0, below them. *)
Lemma append_prepend_strict_witness :
  (exists task,
     Tasks (mem (executeAddTask 0 ["u"] None [] ["t"] "add" smallStore)) = (Tasks smallStore ++ [task])%list /\
     Order task = 3 /\
     Forall (fun t => (Order t <? Order task) = true) (Tasks smallStore)) /\
  (exists task,
     Tasks (mem (executeAddTask 0 ["u"] None ["t"] ["--from-stdin"] "unshift" smallStore)) =
     (Tasks smallStore ++ [task])%list /\
     Order task = 3 /\
     Forall (fun t => (Order t <? Order task) = true) (Tasks smallStore)) /\
  (exists task,
     Tasks (mem (executeAddTask 0 ["u"] None [] ["t"] "unshift" smallStore)) = (Tasks smallStore ++ [task])%list /\
     Order task = 0 /\
     Forall (fun t => (Order task <? Order t) = true) (Tasks smallStore)).
Proof.
  assert (comparable (Tasks smallStore)) as Hc by (repeat constructor).
  split; [|split].
  - destruct (append_prepend_strict 0 ["u"] None [] "t" [] "add" smallStore) as (task & Ht & Happ & _).
    + reflexivity.
    + exists task. split; [exact Ht|].
      destruct Happ as [Ho Hall]; [right; right; left; reflexivity|].
      split; [exact Ho|apply Hall; [exact Hc|reflexivity]].
  - destruct (append_prepend_strict 0 ["u"] None ["t"] "--from-stdin" [] "unshift" smallStore)
      as (task & Ht & Happ & _).
    + vm_compute. reflexivity.
    + exists task. split; [exact Ht|].
      destruct Happ as [Ho Hall]; [right; left; reflexivity|].
      split; [exact Ho|apply Hall; [exact Hc|reflexivity]].
  - destruct (append_prepend_strict 0 ["u"] None [] "t" [] "unshift" smallStore) as (task & Ht & _ & Hpre).
    + reflexivity.
    + exists task. split; [exact Ht|].
      destruct Hpre as [Ho Hall]; [discriminate| discriminate| reflexivity|].
      split; [exact Ho|apply Hall; [exact Hc|reflexivity]].
Defined.

(** C9 as stated fails where float64 absorbs the increment: appended to
    a task of order 2^53, the new task gets the order 2^53 again. *)
Lemma append_absorbed :
  result (executeAddTask 0 ["u"] None [] ["t"] "add" bigStore) = Nil /\
  exists old new,
    Tasks (mem (executeAddTask 0 ["u"] None [] ["t"] "add" bigStore)) = [old; new] /\
    (Order old <? Order new) = false.
Proof. split; [reflexivity|]. do 2 eexists. split; reflexivity. Qed.

(** C2.  The code at a store whose only task has order -1.0: the maximum
    existing order plus 1.0 is 0.0, the appended task gets 1.0. *)
Theorem append_after_negative_orders :
  result (executeAddTask 0 ["u"] None [] ["t"] "add" negativeStore) = Nil /\
  exists old new,
    Tasks (mem (executeAddTask 0 ["u"] None [] ["t"] "add" negativeStore)) = [old; new] /\
    Tasks negativeStore = [old] /\
    Order old + 1 = 0 /\ Order new = 1.
Proof. split; [reflexivity|]. do 2 eexists. repeat split; reflexivity. Qed.

(** ** [executePop]: the selection of the last task *)

Section Pop.

Implicit Types (tasks : list Task) (s : Store).

(** The scan either keeps the pointer it started with, when no task is
    above the running maximum, or leaves a task whose order is above the
    running maximum and at least every order that can be compared. *)
Lemma selectLast_spec tasks : forall i lastTask maxOrder,
  ordered maxOrder ->
  (selectLast i tasks lastTask maxOrder = lastTask /\
   Forall (fun t => ordered (Order t) -> (Order t <=? maxOrder) = true) tasks) \/
  (exists k t, selectLast i tasks lastTask maxOrder = Some ((i + k)%nat, t) /\
               tasks !! k = Some t /\ (maxOrder <? Order t) = true /\
               Forall (fun u => ordered (Order u) -> (Order u <=? Order t) = true) tasks).
Proof.
  induction tasks as [|t r IH]; intros i lastTask maxOrder Hm; simpl.
  - left. split; [reflexivity|constructor].
  - destruct (maxOrder <? Order t) eqn:E.
    + right. destruct (f64_ltb_ordered _ _ E) as [_ Ht].
      destruct (IH (S i) (Some (i, t)) (Order t) Ht) as [[-> Hall] | (k & u & -> & Hk & Hlt & Hall)].
      * exists 0%nat, t. rewrite Nat.add_0_r. repeat split; try assumption; try reflexivity.
        constructor; [intros _; apply f64_leb_refl; assumption|assumption].
      * exists (S k), u. replace (i + S k)%nat with (S i + k)%nat by lia.
        repeat split; try assumption; try reflexivity.
        -- eapply f64_ltb_trans; eassumption.
        -- constructor; [intros _; apply f64_ltb_leb; assumption|assumption].
    + assert (Hle : ordered (Order t) -> (Order t <=? maxOrder) = true).
      { intros Ht. apply f64_not_ltb_leb; assumption. }
      destruct (IH (S i) lastTask maxOrder Hm) as [[-> Hall] | (k & u & -> & Hk & Hlt & Hall)].
      * left. split; [reflexivity|]. constructor; assumption.
      * right. exists (S k), u. replace (i + S k)%nat with (S i + k)%nat by lia.
        repeat split; try assumption; try reflexivity.
        constructor; [|assumption]. intros Ht. apply f64_ltb_leb.
        eapply f64_leb_ltb_trans; [apply Hle; exact Ht|exact Hlt].
Qed.

(** C10.  The selection of [pop task] starts its running maximum at -1.0.
    On a store with a task of order above -1.0 it selects a task of
    maximal order (at least every order that can be compared, which every
    order of a decoded store can).  On a non-empty store whose orders are
    all at most -1.0 it selects none, and the command ends with the
    no-tasks-found error (for every combination of flags that passes the
    flag check). *)
Theorem pop_selects_above_minus_one s :
  ((exists t, In t (Tasks s) /\ (-1 <? Order t) = true) ->
   exists p lastTask,
     findLastTask s = Some (p, lastTask) /\ Tasks s !! p = Some lastTask /\
     (-1 <? Order lastTask) = true /\
     Forall (fun t => ordered (Order t) -> (Order t <=? Order lastTask) = true) (Tasks s)) /\
  (Tasks s <> [] -> Forall (fun t => (Order t <=? -1) = true) (Tasks s) ->
   findLastTask s = None /\
   forall now line flags,
     (existsb (String.eqb "--done") flags && existsb (String.eqb "--rm") flags) = false ->
     executePop now line ("task" :: flags) s = mkRun [] (Failed ErrNoTasksFound) s s).
Proof.
  unfold findLastTask.
  destruct (selectLast_spec (Tasks s) 0 None (-1) eq_refl)
    as [[Hsel Hall] | (k & u & Hsel & Hk & Hlt & Hall)]; split.
  - intros (t & Hin & Hlt). exfalso.
    rewrite Forall_forall in Hall. apply list_elem_of_In in Hin.
    destruct (f64_ltb_ordered _ _ Hlt) as [_ Ht].
    specialize (Hall t Hin Ht). apply f64_leb_not_ltb in Hall. congruence.
  - intros _ _. split; [assumption|].
    intros now line flags Hflags. unfold executePop.
    change (String.eqb "task" "task") with true. cbv beta iota zeta. simpl negb. cbv iota.
    rewrite Hflags. unfold findLastTask. rewrite Hsel. reflexivity.
  - intros _. exists k, u. rewrite Hsel. repeat split; assumption.
  - intros _ Hle. exfalso.
    rewrite Forall_forall in Hle. apply list_elem_of_lookup_2 in Hk.
    specialize (Hle u Hk). apply f64_leb_not_ltb in Hle. congruence.
Qed.

End Pop.

(** The theorem at the store that one [unshift task] leaves: its only
    task has order -1.0 and [pop task] finds no task. *)
Lemma pop_selects_above_minus_one_witness :
  Tasks (mem (executeAddTask 0 ["u"] None [] ["t"] "unshift" NewStore)) <> [] /\
  executePop 0 "" ["task"] (mem (executeAddTask 0 ["u"] None [] ["t"] "unshift" NewStore)) =
  mkRun [] (Failed ErrNoTasksFound)
        (mem (executeAddTask 0 ["u"] None [] ["t"] "unshift" NewStore))
        (mem (executeAddTask 0 ["u"] None [] ["t"] "unshift" NewStore)).
Proof.
  split; [discriminate|].
  apply (pop_selects_above_minus_one (mem (executeAddTask 0 ["u"] None [] ["t"] "unshift" NewStore))).
  - discriminate.
  - repeat constructor.
  - reflexivity.
Defined.

(** ** [sortTasksByOrder] *)

Section Sort.
Implicit Types (tasks pre seen rest : list Task) (x y : Task).

Lemma pass_length x rest : length (snd (pass x rest)) = length rest.
Proof.
  revert x. induction rest as [|y r IH]; intros x; simpl; [reflexivity|].
  destruct (Order y <? Order x).
  - specialize (IH y). destruct (pass y r). simpl in *. lia.
  - specialize (IH x). destruct (pass x r). simpl in *. lia.
Qed.

Lemma exchange_at pre x seen y rest :
  exchange (length pre) (length pre + S (length seen)) (pre ++ x :: seen ++ y :: rest) =
  if Order y <? Order x then pre ++ y :: seen ++ x :: rest else pre ++ x :: seen ++ y :: rest.
Proof.
  unfold exchange.
  rewrite list_lookup_middle by reflexivity.
  rewrite lookup_app_r by lia.
  replace (length pre + S (length seen) - length pre)%nat with (S (length seen)) by lia.
  simpl. rewrite list_lookup_middle by reflexivity.
  destruct (Order y <? Order x); [|reflexivity].
  rewrite insert_app_r_alt by lia. rewrite Nat.sub_diag. simpl.
  rewrite insert_app_r_alt by lia.
  replace (length pre + S (length seen) - length pre)%nat with (S (length seen)) by lia.
  simpl. rewrite insert_app_r_alt by lia. rewrite Nat.sub_diag. reflexivity.
Qed.

Lemma sortInner_pass rest : forall pre x seen,
  sortInner (length rest) (length pre) (length pre + S (length seen)) (pre ++ x :: seen ++ rest) =
  pre ++ fst (pass x rest) :: seen ++ snd (pass x rest).
Proof.
  induction rest as [|y r IH]; intros pre x seen; simpl; [reflexivity|].
  rewrite exchange_at.
  replace (S (length pre + S (length seen))) with (length pre + S (length (seen ++ [x])))%nat
    by (rewrite length_app; simpl; lia).
  destruct (Order y <? Order x).
  - replace (pre ++ y :: seen ++ x :: r) with (pre ++ y :: (seen ++ [x]) ++ r)
      by (rewrite <- app_assoc; reflexivity).
    rewrite IH. destruct (pass y r). simpl. rewrite <- app_assoc. reflexivity.
  - replace (length (seen ++ [x])) with (length (seen ++ [y])) by (rewrite !length_app; reflexivity).
    replace (pre ++ x :: seen ++ y :: r) with (pre ++ x :: (seen ++ [y]) ++ r)
      by (rewrite <- app_assoc; reflexivity).
    rewrite IH. destruct (pass x r). simpl. rewrite <- app_assoc. reflexivity.
Qed.

Lemma sortOuter_passes n : forall tasks pre,
  length tasks = n ->
  sortOuter n (length pre) (pre ++ tasks) = pre ++ passes n tasks.
Proof.
  induction n as [|n IH]; intros tasks pre Hn; [reflexivity|].
  destruct tasks as [|x rest]; [discriminate|]. simpl in Hn. simpl.
  replace (length (pre ++ x :: rest) - S (length pre))%nat with (length rest)
    by (rewrite length_app; simpl; lia).
  pose proof (sortInner_pass rest pre x []) as E. simpl in E.
  replace (length pre + 1)%nat with (S (length pre)) in E by lia.
  rewrite E. pose proof (pass_length x rest) as L.
  destruct (pass x rest) as [m r]. simpl in *.
  replace (pre ++ m :: r) with ((pre ++ [m]) ++ r) by (rewrite <- app_assoc; reflexivity).
  replace (S (length pre)) with (length (pre ++ [m])) by (rewrite length_app; simpl; lia).
  rewrite IH by lia. rewrite <- app_assoc. reflexivity.
Qed.

(** The two loops over positions compute the passes over the list. *)
Lemma sortTasksByOrder_passes tasks : sortTasksByOrder tasks = passes (length tasks) tasks.
Proof. exact (sortOuter_passes (length tasks) tasks [] eq_refl). Qed.

Lemma pass_perm rest : forall x, Permutation (x :: rest) (fst (pass x rest) :: snd (pass x rest)).
Proof.
  induction rest as [|y r IH]; intros x; simpl; [reflexivity|].
  destruct (Order y <? Order x).
  - specialize (IH y). destruct (pass y r) as [m r']. simpl in *.
    rewrite IH. apply perm_swap.
  - specialize (IH x). destruct (pass x r) as [m r']. simpl in *.
    rewrite (perm_swap y x r), IH. apply perm_swap.
Qed.

Lemma passes_perm n : forall tasks, Permutation tasks (passes n tasks).
Proof.
  induction n as [|n IH]; intros tasks; [destruct tasks; reflexivity|].
  destruct tasks as [|x rest]; [reflexivity|]. simpl.
  pose proof (pass_perm rest x) as Hp. destruct (pass x rest) as [m r]. simpl in *.
  rewrite Hp. constructor. apply IH.
Qed.

(** After a pass the running task is at most the task the pass started
    with and at most every task it left behind. *)
Lemma pass_least rest : forall x,
  comparable (x :: rest) ->
  (Order (fst (pass x rest)) <=? Order x) = true /\
  Forall (fun t => (Order (fst (pass x rest)) <=? Order t) = true) (snd (pass x rest)).
Proof.
  induction rest as [|y r IH]; intros x Hc; simpl.
  - inversion Hc; subst. split; [apply f64_leb_refl; assumption|constructor].
  - inversion Hc as [|? ? Hx Hyr]; subst. inversion Hyr as [|? ? Hy Hr]; subst.
    destruct (Order y <? Order x) eqn:E.
    + destruct (IH y Hyr) as (Hle & Hall). destruct (pass y r) as [m r']. simpl in *.
      assert (Hmx : (Order m <=? Order x) = true).
      { eapply f64_leb_trans; [eassumption|apply f64_ltb_leb; assumption]. }
      split; [assumption|constructor; assumption].
    + assert (Hxy : (Order x <=? Order y) = true) by (apply f64_not_ltb_leb; assumption).
      assert (Hxr : comparable (x :: r)) by (constructor; assumption).
      destruct (IH x Hxr) as (Hle & Hall).
      destruct (pass x r) as [m r']. simpl in *.
      split; [assumption|].
      constructor; [|assumption]. eapply f64_leb_trans; eassumption.
Qed.

Lemma comparable_perm tasks tasks' : Permutation tasks tasks' -> comparable tasks -> comparable tasks'.
Proof. unfold comparable. intros Hp Hc. rewrite <- Hp. assumption. Qed.

Lemma passes_ascending n : forall tasks,
  length tasks = n -> comparable tasks -> ascending (passes n tasks).
Proof.
  induction n as [|n IH]; intros tasks Hn Hc.
  - destruct tasks; [constructor|discriminate].
  - destruct tasks as [|x rest]; [discriminate|]. simpl in Hn. simpl.
    destruct (pass_least rest x Hc) as (_ & Hall).
    pose proof (pass_perm rest x) as Hp.
    pose proof (pass_length x rest) as L.
    destruct (pass x rest) as [m r]. simpl in *.
    assert (Hcr : comparable r).
    { apply (comparable_perm _ _ Hp) in Hc. inversion Hc; assumption. }
    constructor; [apply IH; [lia|assumption]|].
    rewrite <- (passes_perm n r). assumption.
Qed.

Lemma sortTasksByOrder_perm tasks : Permutation tasks (sortTasksByOrder tasks).
Proof. rewrite sortTasksByOrder_passes. apply passes_perm. Qed.

Lemma uniqueIDs_perm tasks tasks' : Permutation tasks tasks' -> uniqueIDs tasks -> uniqueIDs tasks'.
Proof. unfold uniqueIDs. intros Hp. rewrite Hp. trivial. Qed.
End Sort.

(** C8 (amended).  On tasks whose orders are comparable (no NaN), the
    sort returns a permutation of its input that ascends by [Order].
    Nothing is claimed about the relative order of tasks with equal
    orders: the sort may exchange them. *)
Theorem sortTasksByOrder_ascending (tasks : list Task) :
  comparable tasks ->
  ascending (sortTasksByOrder tasks) /\ Permutation tasks (sortTasksByOrder tasks).
Proof.
  intros Hc. split.
  - rewrite sortTasksByOrder_passes. apply passes_ascending; [reflexivity|exact Hc].
  - rewrite sortTasksByOrder_passes. apply passes_perm.
Qed.

(** The theorem at three tasks of orders 2.0, 2.0 and 1.0. *)
Lemma sortTasksByOrder_ascending_witness :
  ascending (sortTasksByOrder tiedTasks) /\ Permutation tiedTasks (sortTasksByOrder tiedTasks).
Proof. apply (sortTasksByOrder_ascending tiedTasks). repeat constructor. Defined.

(** C8 as stated fails: of the two tasks of order 2.0, [a] comes before
    [b] in the input and after it in the output. *)
Lemma sortTasksByOrder_not_stable :
  map ID (sortTasksByOrder tiedTasks) = ["c"; "b"; "a"]%string /\
  ~ (ascending (sortTasksByOrder tiedTasks) /\ stable tiedTasks (sortTasksByOrder tiedTasks)).
Proof.
  split; [reflexivity|]. intros [_ H]. specialize (H 2). vm_compute in H. discriminate.
Qed.

(** ** Pointers and neighbours *)

Section Neighbours.
Implicit Types (tasks before after : list Task) (a b t : Task).

Lemma scan_lookup {A : Type} (p : A -> bool) (l : list A) i x :
  scan p l = Some (i, x) -> l !! i = Some x /\ p x = true.
Proof.
  revert i. induction l as [|y r IH]; intros i; simpl; [discriminate|].
  destruct (p y) eqn:E.
  - intros [= <- <-]. auto.
  - destruct (scan p r) as [[j z]|]; [|discriminate].
    intros [= <- <-]. apply IH. reflexivity.
Qed.

Lemma lookupTask_lookup s id p t : lookupTask s id = Some (p, t) -> Tasks s !! p = Some t.
Proof.
  unfold lookupTask, FindTaskByID.
  destruct (String.length id =? 36)%nat; intros H; apply scan_lookup in H; tauto.
Qed.

(** The scan stops at the first position that qualifies. *)
Lemma scanFrom_stops {A : Type} (p : nat -> A -> bool) (before : list A) x (after : list A) : forall i,
  (forall j y, before !! j = Some y -> p (i + j)%nat y = false) ->
  p (i + length before)%nat x = true ->
  scanFrom p i (before ++ x :: after) = Some (i + length before)%nat.
Proof.
  induction before as [|y r IH]; intros i Hno Hx; simpl.
  - rewrite Nat.add_0_r in Hx. rewrite Hx, Nat.add_0_r. reflexivity.
  - pose proof (Hno 0%nat y eq_refl) as H0. rewrite Nat.add_0_r in H0. rewrite H0.
    rewrite IH.
    + f_equal. lia.
    + intros j z Hj. replace (S i + j)%nat with (i + S j)%nat by lia. apply Hno. exact Hj.
    + replace (S i + length r)%nat with (i + length (y :: r))%nat by (simpl; lia). exact Hx.
Qed.

Lemma scanFrom_none {A : Type} (p : nat -> A -> bool) (l : list A) : forall i,
  (forall j y, l !! j = Some y -> p (i + j)%nat y = false) ->
  scanFrom p i l = None.
Proof.
  induction l as [|y r IH]; intros i Hno; simpl; [reflexivity|].
  pose proof (Hno 0%nat y eq_refl) as H0. rewrite Nat.add_0_r in H0. rewrite H0.
  apply IH. intros j z Hj. replace (S i + j)%nat with (i + S j)%nat by lia. apply Hno. exact Hj.
Qed.

Lemma uniqueIDs_middle before t after :
  uniqueIDs (before ++ t :: after) ->
  (forall y, In y before -> String.eqb (ID y) (ID t) = false) /\
  (forall y, In y after -> String.eqb (ID y) (ID t) = false).
Proof.
  unfold uniqueIDs. rewrite map_app. simpl. intros H.
  apply NoDup_app in H as (_ & Hdisj & H2). apply NoDup_cons in H2 as [Hnot _].
  split; intros y Hy; apply String.eqb_neq; intros E.
  - apply (Hdisj (ID y)).
    + apply list_elem_of_In, in_map, Hy.
    + rewrite E. left.
  - apply Hnot. rewrite <- E. apply list_elem_of_In, in_map, Hy.
Qed.

(** With distinct ids, the predecessor of a task is the task before it
    in the list, whichever task that is. *)
Lemma prevTask_adjacent before a b after :
  uniqueIDs (before ++ a :: b :: after) -> prevTask (before ++ a :: b :: after) (ID b) = Some a.
Proof.
  intros Hu. unfold prevTask.
  replace (before ++ a :: b :: after) with ((before ++ [a]) ++ b :: after) in * by (rewrite <- app_assoc; reflexivity).
  destruct (uniqueIDs_middle _ _ _ Hu) as [Hpre _].
  rewrite scanFrom_stops.
  - simpl. rewrite length_app. simpl.
    replace (length before + 1 - 1)%nat with (length before) by lia.
    rewrite <- app_assoc. simpl. apply list_lookup_middle. reflexivity.
  - intros j y Hj. simpl. rewrite Hpre; [reflexivity|].
    apply list_elem_of_In. eapply list_elem_of_lookup_2. exact Hj.
  - simpl. rewrite String.eqb_refl, length_app. simpl.
    apply Nat.ltb_lt. lia.
Qed.

Lemma nextTask_adjacent before a b after :
  uniqueIDs (before ++ a :: b :: after) -> nextTask (before ++ a :: b :: after) (ID a) = Some b.
Proof.
  intros Hu. unfold nextTask.
  destruct (uniqueIDs_middle _ _ _ Hu) as [Hpre _].
  rewrite scanFrom_stops.
  - simpl. replace (length before + 1)%nat with (S (length before)) by lia.
    rewrite lookup_app_r by lia.
    replace (S (length before) - length before)%nat with 1%nat by lia. reflexivity.
  - intros j y Hj. simpl. rewrite Hpre; [reflexivity|].
    apply list_elem_of_In. eapply list_elem_of_lookup_2. exact Hj.
  - simpl. rewrite String.eqb_refl, length_app. simpl.
    apply Nat.ltb_lt. lia.
Qed.

(** The first task has no predecessor and the last task no successor. *)
Lemma prevTask_first t after : uniqueIDs (t :: after) -> prevTask (t :: after) (ID t) = None.
Proof.
  intros Hu. unfold prevTask. rewrite scanFrom_none; [reflexivity|].
  destruct (uniqueIDs_middle [] _ _ Hu) as [_ Hpost].
  intros [|j] y Hj; simpl in *.
  - apply andb_false_r.
  - rewrite Hpost; [reflexivity|]. apply list_elem_of_In. eapply list_elem_of_lookup_2. exact Hj.
Qed.

Lemma nextTask_last before t : uniqueIDs (before ++ [t]) -> nextTask (before ++ [t]) (ID t) = None.
Proof.
  intros Hu. unfold nextTask. rewrite scanFrom_none; [reflexivity|].
  destruct (uniqueIDs_middle _ _ _ Hu) as [Hpre _].
  intros j y Hj. simpl. destruct (decide (j < length before)%nat) as [Hlt|Hge].
  - rewrite lookup_app_l in Hj by exact Hlt. rewrite Hpre; [reflexivity|].
    apply list_elem_of_In. eapply list_elem_of_lookup_2. exact Hj.
  - rewrite length_app. simpl. apply andb_false_intro2. apply Nat.ltb_ge. lia.
Qed.

End Neighbours.

(** ** Neighbours in an ascending list *)

Section Adjacent.
Implicit Types (tasks before after : list Task) (a b x t : Task).

Lemma ascending_app_inv before after :
  ascending (before ++ after) ->
  forall x y, In x before -> In y after -> (Order x <=? Order y) = true.
Proof.
  unfold ascending. induction before as [|z r IH]; intros Hs x y Hx Hy; [destruct Hx|].
  simpl in Hs. apply StronglySorted_inv in Hs as [Hr Hall].
  destruct Hx as [<- | Hx].
  - rewrite Forall_forall in Hall. apply Hall. apply list_elem_of_In, in_or_app. right. exact Hy.
  - apply IH; assumption.
Qed.

(** In the sorted list, a task [a] without a tie is followed by a task
    whose order equals that of the next greater order [b]. *)
Lemma ascending_successor tasks a b :
  ascending tasks -> uniqueIDs tasks ->
  In a tasks -> In b tasks ->
  (Order a <? Order b) = true ->
  Forall (fun t => ((Order a <? Order t) && (Order t <? Order b)) = false) tasks ->
  Forall (fun t => (Order t =? Order a) = true -> ID t = ID a) tasks ->
  exists before x after,
    tasks = before ++ a :: x :: after /\ (Order x =? Order b) = true.
Proof.
  intros Hs Hu Ha Hb Hab Hgap Htie.
  destruct (in_split _ _ Ha) as (before & rest & ->).
  assert (Hbrest : In b rest).
  { apply in_app_or in Hb as [Hb | [<- | Hb]]; [exfalso| exfalso |exact Hb].
    - pose proof (ascending_app_inv _ _ Hs b a Hb (or_introl eq_refl)) as Hle.
      apply f64_leb_not_ltb in Hle. congruence.
    - rewrite f64_ltb_irrefl in Hab. discriminate. }
  destruct rest as [|x after]; [destruct Hbrest|].
  exists before, x, after. split; [reflexivity|].
  assert (Hax : (Order a <=? Order x) = true).
  { apply (ascending_app_inv (before ++ [a]) (x :: after)).
    - rewrite <- app_assoc. exact Hs.
    - apply in_or_app. right. left. reflexivity.
    - left. reflexivity. }
  assert (Hxin : In x (before ++ a :: x :: after)).
  { apply in_or_app. right. right. left. reflexivity. }
  rewrite Forall_forall in Hgap, Htie.
  assert (Hne : (Order x =? Order a) = false).
  { destruct (Order x =? Order a) eqn:E; [|reflexivity]. exfalso.
    pose proof (Htie x (proj2 (list_elem_of_In _ _) Hxin) E) as Hid.
    destruct (uniqueIDs_middle _ _ _ Hu) as [_ Hafter].
    specialize (Hafter x (or_introl eq_refl)). apply String.eqb_neq in Hafter. congruence. }
  pose proof (f64_leb_neq_ltb _ _ Hax Hne) as Hlt.
  pose proof (Hgap x (proj2 (list_elem_of_In _ _) Hxin)) as Hg. rewrite Hlt in Hg. simpl in Hg.
  destruct (f64_ltb_ordered _ _ Hlt) as [_ Hox]. destruct (f64_ltb_ordered _ _ Hab) as [_ Hob].
  apply f64_leb_antisym.
  - destruct Hbrest as [<- | Hbafter]; [apply f64_leb_refl; assumption|].
    apply (ascending_app_inv (before ++ [a; x]) after).
    + rewrite <- app_assoc. exact Hs.
    + apply in_or_app. right. right. left. reflexivity.
    + exact Hbafter.
  - apply f64_not_ltb_leb; assumption.
Qed.

(** Likewise, a task [b] without a tie is preceded by a task whose order
    equals that of the next smaller order [a]. *)
Lemma ascending_predecessor tasks a b :
  ascending tasks -> uniqueIDs tasks ->
  In a tasks -> In b tasks ->
  (Order a <? Order b) = true ->
  Forall (fun t => ((Order a <? Order t) && (Order t <? Order b)) = false) tasks ->
  Forall (fun t => (Order t =? Order b) = true -> ID t = ID b) tasks ->
  exists before x after,
    tasks = before ++ x :: b :: after /\ (Order x =? Order a) = true.
Proof.
  intros Hs Hu Ha Hb Hab Hgap Htie.
  destruct (in_split _ _ Hb) as (front & after & ->).
  assert (Hafront : In a front).
  { apply in_app_or in Ha as [Ha | [<- | Ha]]; [exact Ha| exfalso | exfalso].
    - rewrite f64_ltb_irrefl in Hab. discriminate.
    - pose proof (ascending_app_inv (front ++ [b]) after) as Hle.
      rewrite <- app_assoc in Hle. specialize (Hle Hs b a).
      rewrite f64_leb_not_ltb in Hab; [discriminate|]. apply Hle; [|exact Ha].
      apply in_or_app. right. left. reflexivity. }
  destruct (exists_last (l := front)) as (before & x & ->); [intros ->; destruct Hafront|].
  rewrite <- app_assoc in *. simpl in *.
  exists before, x, after. split; [reflexivity|].
  assert (Hxb : (Order x <=? Order b) = true).
  { apply (ascending_app_inv (before ++ [x]) (b :: after)).
    - rewrite <- app_assoc. exact Hs.
    - apply in_or_app. right. left. reflexivity.
    - left. reflexivity. }
  assert (Hxin : In x (before ++ x :: b :: after)).
  { apply in_or_app. right. left. reflexivity. }
  rewrite Forall_forall in Hgap, Htie.
  assert (Hne : (Order b =? Order x) = false).
  { destruct (Order b =? Order x) eqn:E; [|reflexivity]. exfalso.
    pose proof (Htie x (proj2 (list_elem_of_In _ _) Hxin) (f64_eqb_sym _ _ E)) as Hid.
    replace (before ++ x :: b :: after) with ((before ++ [x]) ++ b :: after) in Hu
      by (rewrite <- app_assoc; reflexivity).
    destruct (uniqueIDs_middle _ _ _ Hu) as [Hfront _].
    specialize (Hfront x ltac:(apply in_or_app; right; left; reflexivity)).
    apply String.eqb_neq in Hfront. congruence. }
  pose proof (f64_leb_neq_ltb _ _ Hxb Hne) as Hlt.
  pose proof (Hgap x (proj2 (list_elem_of_In _ _) Hxin)) as Hg. rewrite Hlt, andb_true_r in Hg.
  destruct (f64_ltb_ordered _ _ Hlt) as [Hox _]. destruct (f64_ltb_ordered _ _ Hab) as [Hoa _].
  apply f64_leb_antisym.
  - apply f64_not_ltb_leb; assumption.
  - apply in_app_or in Hafront as [Hin | [<- | []]]; [|apply f64_leb_refl; assumption].
    apply (ascending_app_inv before (x :: b :: after) Hs); [exact Hin|left; reflexivity].
Qed.

End Adjacent.

(** ** [executeMove] *)

Section MoveProps.

Variable ParseFloat : string -> option float.
Implicit Types (s : Store) (before after : list Task).

Lemma mem_saveAndReport out store old report : mem (saveAndReport out store old report) = store.
Proof. unfold saveAndReport. destruct (encodable store); reflexivity. Qed.

(** A relative move writes [relativeOrder] through the pointer to the
    moved task, whether or not the store can be saved afterwards. *)
Lemma relative_move_order now s taskID where_ targetID p mover q target :
  where_ = "before"%string \/ where_ = "after"%string ->
  lookupTask s taskID = Some (p, mover) ->
  lookupTask s targetID = Some (q, target) ->
  exists moved,
    Tasks (mem (executeMove ParseFloat now [taskID; where_; targetID] s)) !! p = Some moved /\
    ID moved = ID mover /\
    Order moved = relativeOrder where_ (sortTasksByOrder (Tasks s)) target.
Proof.
  intros Hw Hm Ht. exists (set_UpdatedAt now (set_Order
    (relativeOrder where_ (sortTasksByOrder (Tasks s)) target) mover)).
  split; [|split; reflexivity].
  assert (E : mem (executeMove ParseFloat now [taskID; where_; targetID] s) =
              moveTo now p (relativeOrder where_ (sortTasksByOrder (Tasks s)) target) s).
  { unfold executeMove. rewrite Hm, Ht. destruct Hw as [-> | ->]; simpl; apply mem_saveAndReport. }
  rewrite E. unfold moveTo. simpl.
  rewrite list_lookup_alter_eq, (lookupTask_lookup _ _ _ _ Hm). reflexivity.
Qed.

(** C3 (amended).  The neighbour of a relative move is the task next to
    the target in the sorted list of all tasks, whichever task that is: no
    task is excluded, and when the moved task itself is next to the target
    it is the neighbour, so its new order is the midpoint of its own old
    order and the target's. *)
Theorem neighbour_taken_from_full_sorted_list now s taskID targetID p q mover target
    before neighbour after :
  uniqueIDs (Tasks s) ->
  lookupTask s taskID = Some (p, mover) ->
  lookupTask s targetID = Some (q, target) ->
  (sortTasksByOrder (Tasks s) = before ++ neighbour :: target :: after ->
   prevTask (sortTasksByOrder (Tasks s)) (ID target) = Some neighbour /\
   exists moved,
     Tasks (mem (executeMove ParseFloat now [taskID; "before"; targetID] s)) !! p = Some moved /\
     ID moved = ID mover /\ Order moved = (Order neighbour + Order target) / 2) /\
  (sortTasksByOrder (Tasks s) = before ++ target :: neighbour :: after ->
   nextTask (sortTasksByOrder (Tasks s)) (ID target) = Some neighbour /\
   exists moved,
     Tasks (mem (executeMove ParseFloat now [taskID; "after"; targetID] s)) !! p = Some moved /\
     ID moved = ID mover /\ Order moved = (Order target + Order neighbour) / 2).
Proof.
  intros Hu Hm Ht.
  assert (Hus : uniqueIDs (sortTasksByOrder (Tasks s))).
  { eapply uniqueIDs_perm; [apply sortTasksByOrder_perm|exact Hu]. }
  split; intros Hs; rewrite Hs in Hus.
  - assert (Hp : prevTask (sortTasksByOrder (Tasks s)) (ID target) = Some neighbour).
    { rewrite Hs. apply prevTask_adjacent. exact Hus. }
    split; [exact Hp|].
    destruct (relative_move_order now s taskID "before" targetID p mover q target)
      as (moved & Hl & Hid & Ho); [left; reflexivity|assumption|assumption|].
    exists moved. split; [exact Hl|]. split; [exact Hid|].
    rewrite Ho. unfold relativeOrder. simpl. rewrite Hp. reflexivity.
  - assert (Hn : nextTask (sortTasksByOrder (Tasks s)) (ID target) = Some neighbour).
    { rewrite Hs. apply nextTask_adjacent. exact Hus. }
    split; [exact Hn|].
    destruct (relative_move_order now s taskID "after" targetID p mover q target)
      as (moved & Hl & Hid & Ho); [right; reflexivity|assumption|assumption|].
    exists moved. split; [exact Hl|]. split; [exact Hid|].
    rewrite Ho. unfold relativeOrder. simpl. rewrite Hn. reflexivity.
Qed.

(** C4 (amended).  Let A and B be tasks with A.order < B.order and no
    task's order strictly between them.  Moving a task after A, when no
    other task has A's order, or before B, when no other task has B's
    order, assigns it the float64 midpoint (A.order + B.order) / 2.0; the
    new order is strictly between A.order and B.order whenever that
    midpoint is (whenever rounding does not collapse it onto A.order or
    B.order). *)
Theorem move_between_neighbours now s taskID p mover idA qA A idB qB B :
  uniqueIDs (Tasks s) -> comparable (Tasks s) ->
  lookupTask s taskID = Some (p, mover) ->
  lookupTask s idA = Some (qA, A) ->
  lookupTask s idB = Some (qB, B) ->
  (Order A <? Order B) = true ->
  Forall (fun t => ((Order A <? Order t) && (Order t <? Order B)) = false) (Tasks s) ->
  let mid := (Order A + Order B) / 2 in
  let strictly (moved : Task) :=
    (Order A <? mid) = true -> (mid <? Order B) = true ->
    (Order A <? Order moved) = true /\ (Order moved <? Order B) = true in
  (Forall (fun t => (Order t =? Order A) = true -> ID t = ID A) (Tasks s) ->
   exists moved,
     Tasks (mem (executeMove ParseFloat now [taskID; "after"; idA] s)) !! p = Some moved /\
     ID moved = ID mover /\ Order moved = mid /\ strictly moved) /\
  (Forall (fun t => (Order t =? Order B) = true -> ID t = ID B) (Tasks s) ->
   exists moved,
     Tasks (mem (executeMove ParseFloat now [taskID; "before"; idB] s)) !! p = Some moved /\
     ID moved = ID mover /\ Order moved = mid /\ strictly moved).
Proof.
  intros Hu Hc Hm HA HB Hlt Hgap mid strictly.
  pose proof (sortTasksByOrder_perm (Tasks s)) as Hperm.
  assert (Hasc : ascending (sortTasksByOrder (Tasks s))).
  { rewrite sortTasksByOrder_passes. apply passes_ascending; [reflexivity|exact Hc]. }
  assert (Hus : uniqueIDs (sortTasksByOrder (Tasks s))) by (eapply uniqueIDs_perm; eassumption).
  assert (HinA : In A (sortTasksByOrder (Tasks s))).
  { apply (Permutation_in _ Hperm), list_elem_of_In.
    eapply list_elem_of_lookup_2, lookupTask_lookup, HA. }
  assert (HinB : In B (sortTasksByOrder (Tasks s))).
  { apply (Permutation_in _ Hperm), list_elem_of_In.
    eapply list_elem_of_lookup_2, lookupTask_lookup, HB. }
  assert (Hgap' : Forall (fun t => ((Order A <? Order t) && (Order t <? Order B)) = false)
                         (sortTasksByOrder (Tasks s))) by (rewrite <- Hperm; exact Hgap).
  split; intros Htie.
  - assert (Htie' : Forall (fun t => (Order t =? Order A) = true -> ID t = ID A)
                           (sortTasksByOrder (Tasks s))) by (rewrite <- Hperm; exact Htie).
    destruct (ascending_successor _ A B Hasc Hus HinA HinB Hlt Hgap' Htie')
      as (before & x & after & Hs & Hx).
    assert (Hn : nextTask (sortTasksByOrder (Tasks s)) (ID A) = Some x).
    { rewrite Hs. apply nextTask_adjacent. rewrite <- Hs. exact Hus. }
    destruct (relative_move_order now s taskID "after" idA p mover qA A)
      as (moved & Hl & Hid & Ho); [right; reflexivity|assumption|assumption|].
    exists moved. split; [exact Hl|]. split; [exact Hid|].
    assert (E : Order moved = mid).
    { rewrite Ho. unfold relativeOrder. simpl. rewrite Hn.
      unfold mid. f_equal. apply f64_add_eqb_r; assumption. }
    split; [exact E|]. unfold strictly. rewrite E. auto.
  - assert (Htie' : Forall (fun t => (Order t =? Order B) = true -> ID t = ID B)
                           (sortTasksByOrder (Tasks s))) by (rewrite <- Hperm; exact Htie).
    destruct (ascending_predecessor _ A B Hasc Hus HinA HinB Hlt Hgap' Htie')
      as (before & x & after & Hs & Hx).
    assert (Hp : prevTask (sortTasksByOrder (Tasks s)) (ID B) = Some x).
    { rewrite Hs. apply prevTask_adjacent. rewrite <- Hs. exact Hus. }
    destruct (relative_move_order now s taskID "before" idB p mover qB B)
      as (moved & Hl & Hid & Ho); [left; reflexivity|assumption|assumption|].
    exists moved. split; [exact Hl|]. split; [exact Hid|].
    assert (E : Order moved = mid).
    { rewrite Ho. unfold relativeOrder. simpl. rewrite Hp.
      unfold mid. f_equal. apply f64_add_eqb_l; assumption. }
    split; [exact E|]. unfold strictly. rewrite E. auto.
Qed.

End MoveProps.

Lemma uniqueIDs_check tasks : bool_decide (NoDup (map ID tasks)) = true -> uniqueIDs tasks.
Proof. intros H. apply bool_decide_eq_true in H. exact H. Qed.

(** The theorem at the tasks x, m, t of orders 1.0, 2.0, 3.0: for
    [mv m before t] the predecessor of t is m itself. *)
Lemma neighbour_taken_from_full_sorted_list_witness :
  prevTask (sortTasksByOrder (Tasks chainStore)) "t" = Some (plainTask "m" 2 []) /\
  exists moved,
    Tasks (mem (executeMove noParse 0 ["m"; "before"; "t"] chainStore)) !! 1%nat = Some moved /\
    ID moved = "m"%string /\ Order moved = (2 + 3) / 2.
Proof.
  apply (neighbour_taken_from_full_sorted_list noParse 0 chainStore "m" "t" 1%nat 2%nat
           (plainTask "m" 2 []) (plainTask "t" 3 []) [plainTask "x" 1 []] (plainTask "m" 2 []) []).
  - apply uniqueIDs_check. vm_compute. reflexivity.
  - reflexivity.
  - reflexivity.
  - reflexivity.
Defined.

(** C3 as stated fails: for [mv m before t] on the tasks x, m, t of orders
    1.0, 2.0, 3.0 the moved task m is selected as the predecessor of t,
    and its new order is the midpoint 2.5 of its old order and t's. *)
Lemma mover_selected_as_neighbour :
  lookupTask chainStore "m" = Some (1%nat, plainTask "m" 2 []) /\
  lookupTask chainStore "t" = Some (2%nat, plainTask "t" 3 []) /\
  ~ excludesMover chainStore (plainTask "m" 2 []) (plainTask "t" 3 []) /\
  map Order (Tasks (mem (executeMove noParse 0 ["m"; "before"; "t"] chainStore))) = [1; 2.5; 3].
Proof.
  split; [reflexivity|]. split; [reflexivity|]. split; [|reflexivity].
  intros [H _]. apply H. reflexivity.
Qed.

(** The theorem at the tasks a, b, m of orders 1.0, 2.0, 5.0:
    [mv m after a] gives m the order 1.5. *)
Lemma move_between_neighbours_witness :
  exists moved,
    Tasks (mem (executeMove noParse 0 ["m"; "after"; "a"] spacedStore)) !! 2%nat = Some moved /\
    ID moved = "m"%string /\ Order moved = 1.5 /\
    (1 <? Order moved) = true /\ (Order moved <? 2) = true.
Proof.
  destruct (move_between_neighbours noParse 0 spacedStore "m" 2%nat (plainTask "m" 5 [])
              "a" 0%nat (plainTask "a" 1 []) "b" 1%nat (plainTask "b" 2 [])) as [Hafter _].
  - apply uniqueIDs_check. vm_compute. reflexivity.
  - repeat constructor.
  - reflexivity.
  - reflexivity.
  - reflexivity.
  - reflexivity.
  - repeat constructor.
  - destruct Hafter as (moved & Hl & Hid & Ho & Hs).
    + repeat constructor; simpl; intros H; (reflexivity || discriminate).
    + exists moved. split; [exact Hl|]. split; [exact Hid|]. split; [exact Ho|].
      apply Hs; reflexivity.
Defined.

(** C4 as stated fails where another task has A's order: with tasks a, c,
    b, m of orders 1.0, 1.0, 2.0, 5.0 no order lies strictly between those
    of a and b, and [mv m after a] gives m the order 1.0, which is not
    greater than a's. *)
Lemma move_after_tied_task :
  (Order (plainTask "a" 1 []) <? Order (plainTask "b" 2 [])) = true /\
  Forall (fun t => ((1 <? Order t) && (Order t <? 2)) = false) (Tasks tieStore) /\
  exists moved,
    Tasks (mem (executeMove noParse 0 ["m"; "after"; "a"] tieStore)) !! 3%nat = Some moved /\
    ID moved = "m"%string /\ Order moved = 1 /\ (1 <? Order moved) = false.
Proof.
  split; [reflexivity|]. split; [repeat constructor|].
  eexists. split; [reflexivity|]. repeat split; reflexivity.
Qed.

(** ** [removeMemo] and [executeRemove] *)

Section Remove.
Implicit Types (store : Store) (id : string) (refs : list string).



(** Removing the first occurrence removes the only occurrence. *)
Lemma removeFirst_NoDup refs id :
  NoDup refs -> ~ In id (removeFirst (fun memoID => String.eqb memoID id) refs).
Proof.
  induction refs as [|x r IH]; intros Hnd; simpl; [tauto|].
  apply NoDup_cons in Hnd as [Hx Hr].
  destruct (String.eqb x id) eqn:E.
  - apply String.eqb_eq in E. subst. rewrite list_elem_of_In in Hx. exact Hx.
  - apply String.eqb_neq in E. intros [H | H]; [congruence|]. exact (IH Hr H).
Qed.

(** What [removeMemo] achieves: when no task names a memo twice, no task
    names the removed memo afterwards. *)
Lemma removeMemo_prunes store id :
  Forall (fun task => NoDup (MemoRefs task)) (Tasks store) ->
  Forall (fun task => ~ In id (MemoRefs task)) (Tasks (removeMemo store id)).
Proof.
  intros H. unfold removeMemo. simpl. rewrite Forall_map.
  eapply Forall_impl; [exact H|]. intros task Hnd. simpl. apply removeFirst_NoDup. exact Hnd.
Qed.

(** Removing the first element with a key removes the only one. *)
Lemma removeFirst_key {A : Type} (key : A -> string) (l : list A) id :
  NoDup (map key l) ->
  Forall (fun x => key x <> id) (removeFirst (fun x => String.eqb (key x) id) l).
Proof.
  induction l as [|x r IH]; intros Hnd; simpl; [constructor|].
  simpl in Hnd. apply NoDup_cons in Hnd as [Hx Hr].
  destruct (String.eqb (key x) id) eqn:E.
  - apply String.eqb_eq in E. subst id. apply Forall_forall. intros y Hy Ey.
    apply Hx. rewrite <- Ey. apply list_elem_of_In, in_map, list_elem_of_In, Hy.
  - apply String.eqb_neq in E. constructor; [exact E|exact (IH Hr)].
Qed.

(** With distinct memo ids, [removeMemo] leaves no memo with the id. *)
Lemma removeMemo_removes store id :
  NoDup (map Memo.ID (Memos store)) ->
  Forall (fun memo => Memo.ID memo <> id) (Memos (removeMemo store id)).
Proof. intros H. unfold removeMemo. simpl. apply removeFirst_key. exact H. Qed.



End Remove.


(** C1.  The code at [rm <memo> --force] on [linkedStore]: the memo is
    removed and task Q no longer refers to it, but task P, which referred
    to it twice, still does. *)
Theorem forced_removal_keeps_second_reference :
  result (executeRemove [memoM; "--force"] linkedStore) = Nil /\
  Memos (mem (executeRemove [memoM; "--force"] linkedStore)) = [] /\
  map MemoRefs (Tasks (mem (executeRemove [memoM; "--force"] linkedStore))) = [[memoM]; []] /\
  mem (executeRemove [memoM; "--force"] linkedStore) = removeMemo linkedStore memoM.
Proof. repeat split; reflexivity. Qed.

(** ** [parseMarkdown] *)

(** The title is the text of the first heading line, when there is one. *)
Lemma parseMarkdown_title store now uuids content defaultTitle group task memos :
  titleMatch content = Some group ->
  parseMarkdown store now uuids content defaultTitle = Ok (task, memos) ->
  Title task = group.
Proof.
  unfold parseMarkdown. intros ->.
  destruct (extractMemos _ _ _ _ _) as [[[ms c] us]|e]; [|discriminate].
  destruct us; [discriminate|]. intros [= <- _]. reflexivity.
Qed.

(** The round trip on a body without headings: [# Title] and a memo block
    [X] give one task and one memo of content [X]. *)
Example parseMarkdown_round_trip :
  parseMarkdown NewStore 0 [memoM; taskP] (memoDocument "Title" "X") "untitled" =
  Ok (mkTask taskP "Title" ("[memo](" ++ memoM ++ ")") 1 false [memoM] 0 0,
      [Memo.mk memoM None "X" 0 0]).
Proof. reflexivity. Qed.

(** *** Texts, lines and fences *)

Section Strings.
Implicit Types (s a b sep : string) (c : ascii).

Lemma append_cons c a s : (String c a ++ s)%string = String c (a ++ s)%string.
Proof. reflexivity. Qed.

Lemma append_empty_l s : ("" ++ s)%string = s.
Proof. reflexivity. Qed.

Lemma append_empty_r s : (s ++ "")%string = s.
Proof. induction s as [|c r IH]; [reflexivity|]. rewrite append_cons, IH. reflexivity. Qed.

Lemma append_assoc a b s : ((a ++ b) ++ s)%string = (a ++ (b ++ s))%string.
Proof. induction a as [|c r IH]; [reflexivity|]. rewrite !append_cons, IH. reflexivity. Qed.

Lemma prefix_append a s : String.prefix a (a ++ s)%string = true.
Proof.
  induction a as [|c r IH]; [destruct s; reflexivity|]. rewrite append_cons. simpl.
  destruct (ascii_dec c c); [exact IH|congruence].
Qed.

Lemma skip_append a s : skip (String.length a) (a ++ s)%string = s.
Proof.
  induction a as [|c r IH]; [destruct s; reflexivity|]. rewrite append_cons. exact IH.
Qed.

Lemma cut_unfold sep s :
  cut sep s =
  if HasPrefix s sep then Some (EmptyString, skip (String.length sep) s)
  else match s with
       | EmptyString => None
       | String c r => option_map (fun '(before, after) => (String c before, after)) (cut sep r)
       end.
Proof. destruct s; reflexivity. Qed.

(** A separator at the very start is the first occurrence. *)
Lemma cut_here sep s : cut sep (sep ++ s)%string = Some (EmptyString, s).
Proof.
  rewrite cut_unfold. unfold HasPrefix. rewrite prefix_append, skip_append. reflexivity.
Qed.

Lemma cut_step sep c s :
  HasPrefix (String c s) sep = false ->
  cut sep (String c s) = option_map (fun '(before, after) => (String c before, after)) (cut sep s).
Proof. intros H. rewrite cut_unfold, H. reflexivity. Qed.

Lemma Split_one_line a b :
  oneLine a = true -> Split (a ++ String lf b)%string lf = a :: Split b lf.
Proof.
  induction a as [|c r IH]; intros H.
  - rewrite append_empty_l. simpl. reflexivity.
  - simpl in H. apply andb_prop in H as [Hc Hr]. apply negb_true_iff in Hc.
    rewrite append_cons. simpl. unfold lf in *. rewrite Hc. rewrite (IH Hr). reflexivity.
Qed.

Lemma Split_not_nil s : Split s lf <> [].
Proof.
  induction s as [|c r IH]; simpl; [discriminate|].
  destruct (Ascii.eqb c lf); [discriminate|]. destruct (Split r lf); discriminate.
Qed.

Lemma Split_append a b :
  Split (a ++ String lf b)%string lf = Split a lf ++ Split b lf.
Proof.
  induction a as [|c r IH].
  - rewrite append_empty_l. simpl. reflexivity.
  - rewrite append_cons. simpl. rewrite IH. destruct (Ascii.eqb c lf); [reflexivity|].
    pose proof (Split_not_nil r) as Hne.
    destruct (Split r lf); [congruence|reflexivity].
Qed.

Lemma Join_cons w w' ws sep :
  Join (w :: w' :: ws) sep = (w ++ sep ++ Join (w' :: ws) sep)%string.
Proof. reflexivity. Qed.

Lemma Join_Split s : Join (Split s lf) newline = s.
Proof.
  induction s as [|c r IH]; simpl; [reflexivity|].
  pose proof (Split_not_nil r) as Hne.
  destruct (Split r lf) as [|w ws] eqn:Es; [congruence|].
  destruct (Ascii.eqb c lf) eqn:E.
  - apply Ascii.eqb_eq in E. subst c. rewrite Join_cons, IH. reflexivity.
  - destruct ws as [|w' ws'].
    + simpl in *. rewrite IH. reflexivity.
    + rewrite Join_cons in *. rewrite append_cons, IH. reflexivity.
Qed.

End Strings.

Section RoundTrip.
Implicit Types (title body : string).

Lemma memoClose_literal : memoClose = String lf "```".
Proof. reflexivity. Qed.

Lemma memoOpen_literal : memoOpen = ("```memo" ++ String lf "")%string.
Proof. reflexivity. Qed.

Lemma HasPrefix_cons c s a sep :
  HasPrefix (String c s) (String a sep) = Ascii.eqb a c && HasPrefix s sep.
Proof.
  unfold HasPrefix. simpl. destruct (ascii_dec a c) as [->|Hne].
  - rewrite Ascii.eqb_refl. reflexivity.
  - apply Ascii.eqb_neq in Hne. rewrite Hne. reflexivity.
Qed.

Lemma HasPrefix_empty s : HasPrefix s EmptyString = true.
Proof. destruct s; reflexivity. Qed.

(** A closing fence that starts inside [body] ends inside [body]: the
    line feed that follows [body] is none of its three backquotes. *)
Lemma closing_fence_straddles c body :
  HasPrefix (String c body) memoClose = false ->
  HasPrefix (String c (body ++ memoClose)) memoClose = false.
Proof.
  rewrite memoClose_literal, !HasPrefix_cons.
  destruct (Ascii.eqb lf c); [simpl andb|reflexivity].
  destruct body as [|c2 [|c3 [|c4 r]]];
    rewrite ?append_cons, ?append_empty_l, ?HasPrefix_cons, ?HasPrefix_empty;
    try reflexivity;
    change (Ascii.eqb "`" lf) with false; rewrite ?andb_false_r; try reflexivity.
  intros H. exact H.
Qed.

Lemma cut_closing_fence body :
  cut memoClose body = None -> cut memoClose (body ++ memoClose) = Some (body, EmptyString).
Proof.
  induction body as [|c r IH]; intros H.
  - rewrite append_empty_l. rewrite <- (append_empty_r memoClose) at 2. apply cut_here.
  - rewrite cut_unfold in H.
    destruct (HasPrefix (String c r) memoClose) eqn:E; [discriminate|].
    destruct (cut memoClose r) as [[x y]|] eqn:Er; [discriminate|].
    rewrite append_cons, cut_step by (apply closing_fence_straddles; exact E).
    rewrite IH by reflexivity. reflexivity.
Qed.

Lemma list_ascii_of_string_append a b :
  list_ascii_of_string (a ++ b)%string = list_ascii_of_string a ++ list_ascii_of_string b.
Proof. induction a as [|c r IH]; [reflexivity|]. rewrite append_cons. simpl. rewrite IH. reflexivity. Qed.

Lemma trimLeft_stop runes fuel l : dropSpace runes l = None -> trimLeft runes fuel l = l.
Proof. intros H. destruct fuel; simpl; [reflexivity|]. rewrite H. reflexivity. Qed.

(** [TrimSpace] drops a leading line feed and stops at the brackets. *)
Lemma TrimSpace_reference x :
  TrimSpace (String lf ("[" ++ x ++ ")")) = ("[" ++ x ++ ")")%string.
Proof.
  unfold TrimSpace.
  set (l := list_ascii_of_string ("[" ++ x ++ ")")).
  assert (Hl : exists y, rev l = ")"%char :: y).
  { unfold l. rewrite append_cons, append_empty_l. simpl.
    rewrite list_ascii_of_string_append. simpl. rewrite rev_app_distr. simpl. eauto. }
  assert (Hh : exists z, l = "["%char :: z).
  { unfold l. rewrite append_cons. simpl. eauto. }
  change (list_ascii_of_string (String lf ("[" ++ x ++ ")"))) with (lf :: l).
  destruct Hh as [z Hz]. destruct Hl as [y Hy].
  assert (E1 : trimLeft spaceRunes (length (lf :: l)) (lf :: l) = l).
  { change (length (lf :: l)) with (S (length l)).
    change (trimLeft spaceRunes (S (length l)) (lf :: l)) with (trimLeft spaceRunes (length l) l).
    apply trimLeft_stop. rewrite Hz. reflexivity. }
  rewrite E1.
  rewrite trimLeft_stop by (rewrite Hy; reflexivity).
  rewrite rev_involutive. unfold l. apply string_of_list_ascii_of_string.
Qed.

Lemma memoMatches_empty fuel : memoMatches fuel EmptyString = [].
Proof. destruct fuel; reflexivity. Qed.

Lemma memoMatches_step fuel content group rest :
  memoMatch content = Some (group, rest) ->
  memoMatches (S fuel) content = group :: memoMatches fuel rest.
Proof. intros H. simpl. rewrite H. reflexivity. Qed.

Lemma memoDocument_lines title body :
  oneLine title = true ->
  Split (memoDocument title body) lf =
  ("# " ++ title)%string :: "```memo"%string :: Split body lf ++ ["```"%string].
Proof.
  intros H. unfold memoDocument.
  change newline with (String lf EmptyString).
  replace ("# " ++ title ++ String lf "" ++ memoOpen ++ body ++ memoClose)%string
    with (("# " ++ title) ++ String lf (memoOpen ++ body ++ memoClose))%string
    by (rewrite append_assoc; reflexivity).
  rewrite Split_one_line by exact H.
  rewrite memoOpen_literal, memoClose_literal.
  replace (("```memo" ++ String lf "") ++ body ++ String lf "```")%string
    with ("```memo" ++ String lf (body ++ String lf "```"))%string
    by (rewrite append_assoc; reflexivity).
  rewrite !Split_append. reflexivity.
Qed.

End RoundTrip.

(** The round trip of ingestion, where it holds: for a heading [# title]
    with a non-empty title on one line and a memo block whose body has no
    closing fence and no line of the shape of a heading, the parser
    returns one task with that title and one memo with that body, and the
    description of the task is the reference to the memo. *)
Theorem parseMarkdown_memo_round_trip store now memoID taskID uuids title body defaultTitle :
  title <> EmptyString -> oneLine title = true ->
  cut memoClose body = None ->
  Forall (fun line => isHeading line = false) (Split body lf) ->
  parseMarkdown store now (memoID :: taskID :: uuids) (memoDocument title body) defaultTitle =
  Ok (set_Order (GetMaxTaskOrder store + 1)
        (NewTask now taskID title ("[memo](" ++ memoID ++ ")") [memoID]),
      [NewMemo now memoID None body]).
Proof.
  intros Hne Hline Hfence Hplain.
  pose proof (memoDocument_lines title body Hline) as Hlines.
  assert (Hhead : isHeading ("# " ++ title) = true).
  { destruct title as [|c r]; [congruence|]. reflexivity. }
  assert (Htitle : titleMatch (memoDocument title body) = Some title).
  { unfold titleMatch. fold lf. rewrite Hlines. simpl find. rewrite Hhead. reflexivity. }
  assert (Hrest : removeTitles (memoDocument title body) =
                  String lf (memoOpen ++ body ++ memoClose)).
  { unfold removeTitles. fold lf. rewrite Hlines. simpl map. rewrite Hhead.
    rewrite List.map_app. simpl map.
    replace (map (fun line => if isHeading line then EmptyString else line) (Split body lf))
      with (Split body lf).
    2:{ clear -Hplain. induction Hplain as [|line l Hl _ IH]; [reflexivity|].
        simpl. rewrite Hl, <- IH. reflexivity. }
    rewrite <- (Join_Split (String lf (memoOpen ++ body ++ memoClose))).
    f_equal. rewrite memoOpen_literal, memoClose_literal.
    replace (("```memo" ++ String lf "") ++ body ++ String lf "```")%string
      with ("```memo" ++ String lf (body ++ String lf "```"))%string
      by (rewrite append_assoc; reflexivity).
    change (Split (String lf ("```memo" ++ String lf (body ++ String lf "```"))) lf)
      with (EmptyString :: Split ("```memo" ++ String lf (body ++ String lf "```")) lf).
    rewrite !Split_append. reflexivity. }
  assert (Hmatch : memoMatch (String lf (memoOpen ++ body ++ memoClose)) =
                   Some (body, EmptyString)).
  { unfold memoMatch. rewrite cut_step by reflexivity. rewrite cut_here. simpl option_map.
    cbv iota beta. apply cut_closing_fence. exact Hfence. }
  assert (Hreplace : Replace1 (String lf (memoOpen ++ body ++ memoClose))
                              (memoOpen ++ body ++ memoClose) ("[memo](" ++ memoID ++ ")") =
                     String lf ("[memo](" ++ memoID ++ ")")).
  { unfold Replace1. rewrite cut_step by reflexivity.
    rewrite <- (append_empty_r (memoOpen ++ body ++ memoClose)) at 2.
    rewrite cut_here. simpl option_map. cbv iota beta.
    rewrite append_cons, append_empty_l, append_empty_r. reflexivity. }
  unfold parseMarkdown. rewrite Htitle, Hrest.
  change (String.length (String lf (memoOpen ++ body ++ memoClose)))
    with (S (String.length (memoOpen ++ body ++ memoClose))).
  rewrite (memoMatches_step _ _ _ _ Hmatch), memoMatches_empty.
  unfold extractMemos. rewrite Hreplace.
  change ("[memo](" ++ memoID ++ ")")%string with ("[" ++ ("memo](" ++ memoID) ++ ")")%string.
  rewrite TrimSpace_reference. reflexivity.
Qed.

(** C6.  The code at the document with heading [# Title] and one memo
    block whose body is the line [# Notes]: one task titled "Title" and one
    memo are produced and the task refers to the memo, but the content of
    the memo is empty, not [# Notes]. *)
Theorem memo_body_heading_is_lost :
  parseMarkdown NewStore 0 [memoM; taskP] (memoDocument "Title" "# Notes") "untitled" =
  Ok (mkTask taskP "Title" ("[memo](" ++ memoM ++ ")") 1 false [memoM] 0 0,
      [Memo.mk memoM None "" 0 0]).
Proof. reflexivity. Qed.

(** C7.  The code at a document with two heading lines: the first heading
    is the title, and the second heading line is missing from the
    description as well (an empty line is left where it was). *)
Theorem later_heading_is_removed :
  titleMatch twoHeadings = Some "A" /\
  parseMarkdown NewStore 0 [taskP] twoHeadings "untitled" =
  Ok (mkTask taskP "A" ("x" ++ newline ++ newline ++ "y") 1 false [] 0 0, []).
Proof. split; reflexivity. Qed.

(** * Further properties of the commands *)

(** ** Lookups by identifier *)

Section Lookups.

Implicit Types (s store : Store).

Lemma scan_app {A : Type} (p : A -> bool) (l l' : list A) :
  scan p (l ++ l') =
  match scan p l with
  | Some r => Some r
  | None => option_map (fun '(i, y) => ((length l + i)%nat, y)) (scan p l')
  end.
Proof.
  induction l as [|x l IH]; simpl.
  - destruct (scan p l') as [[i y]|]; reflexivity.
  - destruct (p x); [reflexivity|]. rewrite IH.
    destruct (scan p l) as [[i y]|]; simpl; [reflexivity|].
    destruct (scan p l') as [[i y]|]; reflexivity.
Qed.

(** The scan stops at the first element that satisfies [p]. *)
Lemma scan_first {A : Type} (p : A -> bool) (l : list A) i x :
  scan p l = Some (i, x) <->
  l !! i = Some x /\ p x = true /\ forall j y, (j < i)%nat -> l !! j = Some y -> p y = false.
Proof.
  revert i. induction l as [|a l IH]; intros i; simpl.
  - split; [discriminate|]. intros [H _]. discriminate.
  - destruct (p a) eqn:Ha.
    + split.
      * intros [= <- <-]. repeat split; [assumption|]. intros j y Hj. lia.
      * intros (Hl & Hx & Hfirst). destruct i as [|i].
        -- simpl in Hl. congruence.
        -- specialize (Hfirst 0%nat a ltac:(lia) eq_refl). congruence.
    + destruct i as [|i].
      * split.
        -- destruct (scan p l) as [[k y]|]; simpl; discriminate.
        -- intros (Hl & Hx & _). simpl in Hl. congruence.
      * transitivity (scan p l = Some (i, x)).
        { destruct (scan p l) as [[k y]|]; simpl; split; intros [= -> ->]; reflexivity. }
        rewrite IH. simpl. split; intros (Hl & Hx & Hfirst); repeat split; try assumption.
        -- intros [|j] z Hj Hz; simpl in Hz; [congruence|]. apply (Hfirst j); [lia|assumption].
        -- intros j z Hj Hz. apply (Hfirst (S j)); [lia|assumption].
Qed.

Lemma scan_none {A : Type} (p : A -> bool) (l : list A) :
  scan p l = None <-> Forall (fun x => p x = false) l.
Proof.
  induction l as [|a l IH]; simpl.
  - split; [constructor|reflexivity].
  - destruct (p a) eqn:Ha.
    + split; [discriminate|]. intros H. apply Forall_cons in H as [H _]. congruence.
    + destruct (scan p l) as [[k y]|]; simpl.
      * split; [discriminate|]. intros H. apply Forall_cons in H as [_ H]. apply IH in H. discriminate.
      * split; [|reflexivity]. intros _. constructor; [assumption|]. apply IH. reflexivity.
Qed.

Lemma scan_In {A : Type} (p : A -> bool) (l : list A) i x :
  scan p l = Some (i, x) -> In x l /\ p x = true.
Proof.
  intros H. apply scan_lookup in H as [Hl Hp]. split; [|exact Hp].
  apply list_elem_of_In. eapply list_elem_of_lookup_2, Hl.
Qed.

Lemma scan_weaker {A : Type} (p q : A -> bool) (l : list A) :
  (forall x, p x = true -> q x = true) -> scan q l = None -> scan p l = None.
Proof.
  intros Hpq. rewrite !scan_none. intros H. eapply Forall_impl; [exact H|].
  intros x Hx. simpl in Hx. destruct (p x) eqn:E; [|reflexivity]. apply Hpq in E. congruence.
Qed.

Lemma prefix_refl a : String.prefix a a = true.
Proof.
  induction a as [|c a IH]; simpl; [reflexivity|].
  destruct (ascii_dec c c); [exact IH|congruence].
Qed.

Lemma FindTaskByID_position s id i task :
  FindTaskByID s id = Some (i, task) <->
  Tasks s !! i = Some task /\ ID task = id /\
  forall j earlier, (j < i)%nat -> Tasks s !! j = Some earlier -> ID earlier <> id.
Proof.
  unfold FindTaskByID. rewrite scan_first. rewrite String.eqb_eq.
  split; intros (H1 & H2 & H3); repeat split; try assumption; intros j y Hj Hy.
  - apply String.eqb_neq. eauto.
  - apply String.eqb_neq. eauto.
Qed.

(** X1.  [FindTaskByID] returns the first task of the store that has
    the identifier, with its position, and nil exactly when no task has
    it: among tasks that share an identifier only the first can be found. *)
Theorem FindTaskByID_first s id :
  (forall i task, FindTaskByID s id = Some (i, task) <->
     Tasks s !! i = Some task /\ ID task = id /\
     forall j earlier, (j < i)%nat -> Tasks s !! j = Some earlier -> ID earlier <> id) /\
  (FindTaskByID s id = None <-> Forall (fun task => ID task <> id) (Tasks s)).
Proof.
  split; [intros i task; apply FindTaskByID_position|].
  unfold FindTaskByID. rewrite scan_none.
  split; intros H; eapply Forall_impl; try exact H; intros t Ht; simpl in *;
    apply String.eqb_neq; assumption.
Qed.

(** X2.  A lookup after [AddTask]: what was found before is still found,
    at the same position, and an identifier that was not found is found
    exactly when it is that of the added task, which is then the last
    task of the store. *)
Theorem FindTaskByID_AddTask s task id :
  FindTaskByID (AddTask task s) id =
  match FindTaskByID s id with
  | Some found => Some found
  | None => if String.eqb (ID task) id then Some (length (Tasks s), task) else None
  end.
Proof.
  unfold FindTaskByID, AddTask. simpl. rewrite scan_app.
  destruct (scan _ (Tasks s)) as [r|]; [reflexivity|]. simpl.
  destruct (String.eqb (ID task) id); simpl; [|reflexivity].
  rewrite Nat.add_0_r. reflexivity.
Qed.

(** X3.  The lookup the commands start with: an identifier of 36 bytes
    selects the first task that has exactly this identifier, any other
    text selects the first task, in the sequence of the store, whose
    identifier starts with it.  A text that is a prefix of several
    identifiers is no error. *)
Theorem lookupTask_first_match s id p task :
  lookupTask s id = Some (p, task) <->
  Tasks s !! p = Some task /\
  (if (String.length id =? 36)%nat then ID task = id else HasPrefix (ID task) id = true) /\
  forall j earlier, (j < p)%nat -> Tasks s !! j = Some earlier ->
    if (String.length id =? 36)%nat then ID earlier <> id else HasPrefix (ID earlier) id = false.
Proof.
  unfold lookupTask. destruct (String.length id =? 36)%nat.
  - apply FindTaskByID_position.
  - apply (scan_first (fun t => HasPrefix (ID t) id) (Tasks s) p task).
Qed.

End Lookups.

(** ** The least and the greatest order *)

(** X4.  On a store with a task, whose orders can all be compared,
    [GetMinTaskOrder] is the order of one of the tasks and at most the
    order of every task: a true minimum, negative when every order is. *)
Theorem GetMinTaskOrder_least s :
  Tasks s <> [] -> comparable (Tasks s) ->
  exists task, In task (Tasks s) /\ GetMinTaskOrder s = Order task /\
               Forall (fun other => (Order task <=? Order other) = true) (Tasks s).
Proof.
  intros Hne Hc. unfold GetMinTaskOrder.
  destruct (Tasks s) as [|t0 rest] eqn:E; [congruence|]. clear Hne.
  assert (forall tasks m0, (exists t, In t (t0 :: rest) /\ m0 = Order t) -> incl tasks (t0 :: rest) ->
            exists t, In t (t0 :: rest) /\
              fold_left (fun minOrder task => if Order task <? minOrder then Order task else minOrder)
                        tasks m0 = Order t) as Hatt.
  { induction tasks as [|x tasks IH]; intros m0 Hm0 Hincl; simpl.
    - exact Hm0.
    - apply IH.
      + destruct (Order x <? m0); [|assumption].
        exists x. split; [apply Hincl; left; reflexivity|reflexivity].
      + intros y Hy. apply Hincl. right. assumption. }
  destruct (Hatt (t0 :: rest) (Order t0)) as (t & Hin & Ht).
  { exists t0. split; [left; reflexivity|reflexivity]. }
  { intros y Hy. assumption. }
  exists t. split; [assumption|]. split; [assumption|].
  rewrite <- Ht.
  assert (ordered (Order t0)) as H0 by (apply Forall_cons in Hc as [H _]; exact H).
  destruct (fold_min_lower (t0 :: rest) (Order t0) H0 Hc) as (_ & _ & H). exact H.
Qed.

Lemma GetMinTaskOrder_least_witness :
  exists task, In task (Tasks negativeStore) /\ GetMinTaskOrder negativeStore = Order task /\
               Forall (fun other => (Order task <=? Order other) = true) (Tasks negativeStore).
Proof.
  apply (GetMinTaskOrder_least negativeStore); [discriminate|repeat constructor].
Defined.

(** X5.  [GetMaxTaskOrder] is the greatest of 0.0 and the orders: it is
    at least 0.0 and at least every order, it is 0.0 or the order of a
    task, and it is 0.0 on every store without an order above 0.0, the
    empty one and the ones with negative orders alike. *)
Theorem GetMaxTaskOrder_zero_or_greatest s :
  comparable (Tasks s) ->
  (0 <=? GetMaxTaskOrder s) = true /\
  Forall (fun task => (Order task <=? GetMaxTaskOrder s) = true) (Tasks s) /\
  (GetMaxTaskOrder s = 0 \/ exists task, In task (Tasks s) /\ GetMaxTaskOrder s = Order task) /\
  (Forall (fun task => (Order task <=? 0) = true) (Tasks s) -> GetMaxTaskOrder s = 0).
Proof.
  intros Hc. destruct (fold_max_upper (Tasks s) 0 eq_refl Hc) as (_ & H0 & Hall).
  split; [exact H0|]. split; [exact Hall|].
  destruct (fold_max_attained (Tasks s) 0) as [E|(t & Hin & E & Hlt)].
  - split; [left; exact E|]. intros _. exact E.
  - split; [right; exists t; split; assumption|].
    intros Hle. exfalso. rewrite Forall_forall in Hle. apply list_elem_of_In in Hin.
    specialize (Hle t Hin). apply f64_leb_not_ltb in Hle. congruence.
Qed.

Lemma GetMaxTaskOrder_zero_or_greatest_witness :
  GetMaxTaskOrder negativeStore = 0 /\ (0 <=? GetMaxTaskOrder smallStore) = true.
Proof.
  split.
  - apply (GetMaxTaskOrder_zero_or_greatest negativeStore); repeat constructor.
  - apply (GetMaxTaskOrder_zero_or_greatest smallStore); repeat constructor.
Defined.

(** ** Sorting a sorted list *)

Lemma pass_fixed rest : forall x,
  Forall (fun y => (Order x <=? Order y) = true) rest -> pass x rest = (x, rest).
Proof.
  induction rest as [|y r IH]; intros x H; simpl; [reflexivity|].
  apply Forall_cons in H as [Hy Hr].
  rewrite (f64_leb_not_ltb _ _ Hy), (IH x Hr). reflexivity.
Qed.

Lemma passes_fixed n : forall tasks, ascending tasks -> passes n tasks = tasks.
Proof.
  induction n as [|n IH]; intros tasks H; [destruct tasks; reflexivity|].
  destruct tasks as [|x rest]; [reflexivity|]. simpl.
  apply StronglySorted_inv in H as [Hrest Hx].
  rewrite (pass_fixed rest x) by (apply Forall_forall; rewrite Forall_forall in Hx; exact Hx).
  rewrite (IH rest Hrest). reflexivity.
Qed.

(** X6.  [sortTasksByOrder] leaves an ascending list as it is, tasks of
    equal order included; so sorting a list whose orders can be compared
    a second time changes nothing. *)
Theorem sortTasksByOrder_fixed tasks :
  (ascending tasks -> sortTasksByOrder tasks = tasks) /\
  (comparable tasks -> sortTasksByOrder (sortTasksByOrder tasks) = sortTasksByOrder tasks).
Proof.
  assert (forall l, ascending l -> sortTasksByOrder l = l) as H.
  { intros l Hl. rewrite sortTasksByOrder_passes. apply passes_fixed, Hl. }
  split; [apply H|]. intros Hc. apply H.
  rewrite sortTasksByOrder_passes. apply passes_ascending; [reflexivity|assumption].
Qed.

Lemma sortTasksByOrder_fixed_witness :
  sortTasksByOrder (Tasks tieStore) = Tasks tieStore /\
  sortTasksByOrder (sortTasksByOrder tiedTasks) = sortTasksByOrder tiedTasks.
Proof.
  split.
  - apply (sortTasksByOrder_fixed (Tasks tieStore)). repeat constructor.
  - apply (sortTasksByOrder_fixed tiedTasks). repeat constructor.
Defined.

(** ** Removal *)

Section Removal.

Implicit Types (s store : Store).

Lemma removeFirst_delete {A : Type} (pr : A -> bool) (l : list A) : forall p x,
  l !! p = Some x -> pr x = true ->
  (forall j y, (j < p)%nat -> l !! j = Some y -> pr y = false) ->
  removeFirst pr l = delete p l.
Proof.
  induction l as [|a l IH]; intros p x Hl Hx Hfirst; [discriminate|].
  destruct p as [|p]; simpl in *.
  - injection Hl as ->. rewrite Hx. reflexivity.
  - rewrite (Hfirst 0%nat a ltac:(lia) eq_refl). f_equal.
    apply (IH p x Hl Hx). intros j y Hj Hy. apply (Hfirst (S j)); [lia|exact Hy].
Qed.

Lemma removeFirst_In {A : Type} (pr : A -> bool) (l : list A) x :
  In x (removeFirst pr l) -> In x l.
Proof.
  induction l as [|a l IH]; simpl; [tauto|].
  destruct (pr a); simpl; [tauto|]. intros [H|H]; [left; exact H|right; apply IH, H].
Qed.

(** No task before the one that [lookupTask] finds has its identifier. *)
Lemma lookupTask_first store id p task :
  lookupTask store id = Some (p, task) ->
  Tasks store !! p = Some task /\
  forall j y, (j < p)%nat -> Tasks store !! j = Some y -> String.eqb (ID y) (ID task) = false.
Proof.
  unfold lookupTask, FindTaskByID. intros H.
  destruct (String.length id =? 36)%nat; apply scan_first in H as (Hl & Hx & Hfirst);
    (split; [exact Hl|]); intros j y Hj Hy; specialize (Hfirst j y Hj Hy);
    destruct (String.eqb_spec (ID y) (ID task)) as [E|]; try reflexivity;
    rewrite E in Hfirst; congruence.
Qed.

Lemma encodable_removeTask store id : encodable store = true -> encodable (removeTask store id) = true.
Proof.
  unfold encodable. rewrite !forallb_forall. intros H x Hx. apply H.
  simpl in Hx. eapply removeFirst_In, Hx.
Qed.

(** X7.  [rm] with an identifier or prefix that [lookupTask] resolves to
    a task removes exactly the task at the position found: the other
    tasks stay in their sequence and every memo stays, the memos the
    task referred to and a memo that the same text would match
    included.  On a store that can be encoded the command returns nil,
    saves, and prints the one line with the title. *)
Theorem executeRemove_task store id flags p task :
  lookupTask store id = Some (p, task) ->
  let r := executeRemove (id :: flags) store in
  Tasks (mem r) = delete p (Tasks store) /\ Memos (mem r) = Memos store /\
  (encodable store = true ->
   result r = Nil /\ disk r = mem r /\ stdout r = [PrintTaskRemoved (Title task)]).
Proof.
  intros H. simpl. rewrite H.
  destruct (lookupTask_first _ _ _ _ H) as (Hl & Hfirst).
  rewrite mem_saveAndReport. simpl.
  split; [|split; [reflexivity|]].
  - apply (removeFirst_delete _ _ p task Hl); [apply String.eqb_refl|exact Hfirst].
  - intros He. unfold saveAndReport. rewrite (encodable_removeTask _ _ He). simpl. auto.
Qed.

Lemma executeRemove_task_witness :
  Tasks (mem (executeRemove ["5e0f"] linkedStore)) = [plainTask taskQ 2 [memoM]] /\
  Memos (mem (executeRemove ["5e0f"] linkedStore)) = Memos linkedStore /\
  result (executeRemove ["5e0f"] linkedStore) = Nil.
Proof.
  destruct (executeRemove_task linkedStore "5e0f" [] 0 (plainTask taskP 1 [memoM; memoM]) eq_refl)
    as (H1 & H2 & H3).
  destruct (H3 eq_refl) as (H4 & _).
  split; [exact H1|]. split; [exact H2|exact H4].
Defined.

Lemma lookupTask_none store id :
  Forall (fun task => HasPrefix (ID task) id = false) (Tasks store) -> lookupTask store id = None.
Proof.
  intros H. apply scan_none in H. unfold lookupTask, FindTaskByID.
  destruct (String.length id =? 36)%nat; [|exact H].
  eapply scan_weaker; [|exact H]. intros x Hx. simpl in *. apply String.eqb_eq in Hx. rewrite <- Hx.
  apply prefix_refl.
Qed.

Lemma lookupMemo_none store id :
  Forall (fun memo => HasPrefix (Memo.ID memo) id = false) (Memos store) -> lookupMemo store id = None.
Proof.
  intros H. apply scan_none in H. unfold lookupMemo, FindMemoByID.
  destruct (String.length id =? 36)%nat; [|exact H].
  eapply scan_weaker; [|exact H]. intros x Hx. simpl in *. apply String.eqb_eq in Hx. rewrite <- Hx.
  apply prefix_refl.
Qed.

(** X8.  [rm] with a text that starts no identifier of a task or of a
    memo returns the no-task-or-memo error with that text, whatever the
    flags, prints nothing and leaves the store and the data file as they
    were. *)
Theorem executeRemove_unknown store id flags :
  Forall (fun task => HasPrefix (ID task) id = false) (Tasks store) ->
  Forall (fun memo => HasPrefix (Memo.ID memo) id = false) (Memos store) ->
  executeRemove (id :: flags) store = mkRun [] (Failed (ErrNoTaskOrMemo id)) store store.
Proof.
  intros Ht Hm. simpl. rewrite (lookupTask_none _ _ Ht), (lookupMemo_none _ _ Hm). reflexivity.
Qed.

Lemma executeRemove_unknown_witness :
  executeRemove ["5e0f2"; "--force"] linkedStore =
  mkRun [] (Failed (ErrNoTaskOrMemo "5e0f2")) linkedStore linkedStore.
Proof.
  apply (executeRemove_unknown linkedStore "5e0f2" ["--force"]); repeat constructor.
Defined.

Lemma encodable_removeMemo store id : encodable (removeMemo store id) = encodable store.
Proof.
  unfold encodable, removeMemo. simpl. induction (Tasks store) as [|t l IH]; simpl; [reflexivity|].
  rewrite IH. reflexivity.
Qed.

(** X9.  Referential integrity of a memo removal that goes through: when
    no task lists a memo twice and the memos have distinct identifiers,
    a removal of a memo that is forced, or that no task refers to,
    returns nil, saves, and leaves a store in which no task refers to
    the memo and no memo has its identifier. *)
Theorem executeRemove_memo_integrity store id flags q memo :
  lookupTask store id = None ->
  lookupMemo store id = Some (q, memo) ->
  existsb (fun a => String.eqb a "-f" || String.eqb a "--force") flags = true \/
    findTasksReferencingMemo store (Memo.ID memo) = [] ->
  Forall (fun task => NoDup (MemoRefs task)) (Tasks store) ->
  NoDup (map Memo.ID (Memos store)) ->
  encodable store = true ->
  let r := executeRemove (id :: flags) store in
  result r = Nil /\ disk r = mem r /\ mem r = removeMemo store (Memo.ID memo) /\
  Forall (fun task => ~ In (Memo.ID memo) (MemoRefs task)) (Tasks (mem r)) /\
  Forall (fun other => Memo.ID other <> Memo.ID memo) (Memos (mem r)).
Proof.
  intros Ht Hm Hforce Hrefs Hids He r.
  assert (forall out, saveAndReport out (removeMemo store (Memo.ID memo)) store
                        [PrintMemoRemoved (match Memo.Title memo with Some t => t | None => "<no title>" end)] =
                      mkRun (out ++ [PrintMemoRemoved (match Memo.Title memo with Some t => t | None => "<no title>" end)])
                            Nil (removeMemo store (Memo.ID memo)) (removeMemo store (Memo.ID memo))) as Hsave.
  { intros out. unfold saveAndReport. rewrite encodable_removeMemo, He. reflexivity. }
  assert (exists out, r = mkRun out Nil (removeMemo store (Memo.ID memo)) (removeMemo store (Memo.ID memo)))
    as [out Hr].
  { subst r. unfold executeRemove. rewrite Ht, Hm. cbv zeta.
    destruct (0 <? length (findTasksReferencingMemo store (Memo.ID memo)))%nat eqn:Hn.
    - destruct Hforce as [Hf|Hf].
      + rewrite Hf. simpl negb. cbv iota. rewrite Hsave. eexists. reflexivity.
      + rewrite Hf in Hn. discriminate.
    - rewrite Hsave. eexists. reflexivity. }
  rewrite Hr. simpl. repeat split.
  - apply removeMemo_prunes, Hrefs.
  - apply removeMemo_removes, Hids.
Qed.

(** The theorem at the store that is left when task P, which lists the
    memo twice, is removed. *)
Lemma executeRemove_memo_integrity_witness :
  result (executeRemove [memoM; "-f"] (removeTask linkedStore taskP)) = Nil /\
  Forall (fun task => ~ In memoM (MemoRefs task))
         (Tasks (mem (executeRemove [memoM; "-f"] (removeTask linkedStore taskP)))) /\
  Memos (mem (executeRemove [memoM; "-f"] (removeTask linkedStore taskP))) = [].
Proof.
  destruct (executeRemove_memo_integrity (removeTask linkedStore taskP) memoM ["-f"] 0
              (Memo.mk memoM None "note" 0 0) eq_refl eq_refl (or_introl eq_refl))
    as (H1 & _ & H3 & H4 & _).
  - repeat constructor; simpl; intros H; apply list_elem_of_In in H; destruct H.
  - apply NoDup_singleton.
  - reflexivity.
  - split; [exact H1|]. split; [exact H4|]. rewrite H3. reflexivity.
Defined.

Lemma removeFirst_others {A : Type} (pr : A -> bool) (l : list A) :
  List.filter (fun x => negb (pr x)) (removeFirst pr l) = List.filter (fun x => negb (pr x)) l.
Proof.
  induction l as [|a l IH]; simpl; [reflexivity|].
  destruct (pr a) eqn:Ha; simpl; [reflexivity|]. rewrite Ha. simpl. rewrite IH. reflexivity.
Qed.

Lemma removeFirst_length {A : Type} (pr : A -> bool) (l : list A) :
  (length l <= S (length (removeFirst pr l)))%nat.
Proof.
  induction l as [|a l IH]; simpl; [lia|]. destruct (pr a); simpl; lia.
Qed.

(** X10.  What [removeMemo] leaves alone: every task stays at its
    position with all its fields but the references, its references to
    other memos stay in their sequence, the memos with another
    identifier stay in their sequence, and at most one memo goes. *)
Theorem removeMemo_frame store id :
  Forall2 (fun task task' =>
             set_MemoRefs (MemoRefs task) task' = task /\
             List.filter (fun ref => negb (String.eqb ref id)) (MemoRefs task') =
             List.filter (fun ref => negb (String.eqb ref id)) (MemoRefs task))
          (Tasks store) (Tasks (removeMemo store id)) /\
  List.filter (fun memo => negb (String.eqb (Memo.ID memo) id)) (Memos (removeMemo store id)) =
  List.filter (fun memo => negb (String.eqb (Memo.ID memo) id)) (Memos store) /\
  (length (Memos store) <= S (length (Memos (removeMemo store id))))%nat.
Proof.
  unfold removeMemo. simpl. split; [|split].
  - induction (Tasks store) as [|t l IH]; simpl; constructor; [|exact IH].
    split; [destruct t; reflexivity|]. simpl. apply removeFirst_others.
  - apply (removeFirst_others (fun memo => String.eqb (Memo.ID memo) id)).
  - apply removeFirst_length.
Qed.

End Removal.

(** ** Moves to the ends and what a move leaves alone *)

Section MoveEnds.

Variable ParseFloat : string -> option float.

(** The sorted list starts with a task that is strictly before all others. *)
Lemma sorted_head s target :
  uniqueIDs (Tasks s) -> comparable (Tasks s) -> In target (Tasks s) ->
  Forall (fun t => ID t = ID target \/ (Order target <? Order t) = true) (Tasks s) ->
  exists after, sortTasksByOrder (Tasks s) = target :: after.
Proof.
  intros Hu Hc Hin Hall.
  pose proof (sortTasksByOrder_perm (Tasks s)) as Hperm.
  assert (ascending (sortTasksByOrder (Tasks s))) as Hasc.
  { rewrite sortTasksByOrder_passes. apply passes_ascending; [reflexivity|exact Hc]. }
  pose proof (uniqueIDs_perm _ _ Hperm Hu) as Hu'.
  assert (In target (sortTasksByOrder (Tasks s))) as Hin'.
  { eapply Permutation_in; [exact Hperm|exact Hin]. }
  apply in_split in Hin' as (before & after & E).
  destruct before as [|b before]; [exists after; exact E|].
  exfalso. rewrite E in Hasc, Hu'.
  assert (In b (Tasks s)) as Hb.
  { eapply Permutation_in; [symmetry; exact Hperm|]. rewrite E. left. reflexivity. }
  rewrite List.Forall_forall in Hall. destruct (Hall b Hb) as [Hid|Hlt].
  - destruct (uniqueIDs_middle _ _ _ Hu') as [Hbefore _].
    specialize (Hbefore b ltac:(left; reflexivity)). apply String.eqb_neq in Hbefore. contradiction.
  - pose proof (ascending_app_inv _ _ Hasc b target ltac:(left; reflexivity) ltac:(left; reflexivity)) as Hle.
    apply f64_leb_not_ltb in Hle. congruence.
Qed.

(** It ends with a task that is strictly after all others. *)
Lemma sorted_last s target :
  uniqueIDs (Tasks s) -> comparable (Tasks s) -> In target (Tasks s) ->
  Forall (fun t => ID t = ID target \/ (Order t <? Order target) = true) (Tasks s) ->
  exists before, sortTasksByOrder (Tasks s) = before ++ [target].
Proof.
  intros Hu Hc Hin Hall.
  pose proof (sortTasksByOrder_perm (Tasks s)) as Hperm.
  assert (ascending (sortTasksByOrder (Tasks s))) as Hasc.
  { rewrite sortTasksByOrder_passes. apply passes_ascending; [reflexivity|exact Hc]. }
  pose proof (uniqueIDs_perm _ _ Hperm Hu) as Hu'.
  assert (In target (sortTasksByOrder (Tasks s))) as Hin'.
  { eapply Permutation_in; [exact Hperm|exact Hin]. }
  apply in_split in Hin' as (before & after & E).
  destruct after as [|a after]; [exists before; exact E|].
  exfalso. rewrite E in Hasc, Hu'.
  assert (In a (Tasks s)) as Ha.
  { eapply Permutation_in; [symmetry; exact Hperm|]. rewrite E.
    apply in_or_app. right. right. left. reflexivity. }
  rewrite List.Forall_forall in Hall. destruct (Hall a Ha) as [Hid|Hlt].
  - destruct (uniqueIDs_middle _ _ _ Hu') as [_ Hafter].
    specialize (Hafter a ltac:(left; reflexivity)). apply String.eqb_neq in Hafter. contradiction.
  - change (before ++ target :: a :: after) with (before ++ [target] ++ a :: after) in Hasc.
    rewrite app_assoc in Hasc.
    pose proof (ascending_app_inv _ _ Hasc target a ltac:(apply in_or_app; right; left; reflexivity)
                  ltac:(left; reflexivity)) as Hle.
    apply f64_leb_not_ltb in Hle. congruence.
Qed.

(** X11.  A move beyond the ends: in a store with distinct identifiers
    and orders that can be compared, [mv <id> before <target>] with a
    target whose order is strictly below that of every other task gives
    the moved task the order of the target minus 1.0, and
    [mv <id> after <target>] with a target strictly above every other
    task gives it the order of the target plus 1.0. *)
Theorem move_beyond_the_ends now s taskID targetID p q mover target :
  uniqueIDs (Tasks s) -> comparable (Tasks s) ->
  lookupTask s taskID = Some (p, mover) ->
  lookupTask s targetID = Some (q, target) ->
  (Forall (fun t => ID t = ID target \/ (Order target <? Order t) = true) (Tasks s) ->
   exists moved,
     Tasks (mem (executeMove ParseFloat now [taskID; "before"; targetID] s)) !! p = Some moved /\
     ID moved = ID mover /\ Order moved = Order target - 1) /\
  (Forall (fun t => ID t = ID target \/ (Order t <? Order target) = true) (Tasks s) ->
   exists moved,
     Tasks (mem (executeMove ParseFloat now [taskID; "after"; targetID] s)) !! p = Some moved /\
     ID moved = ID mover /\ Order moved = Order target + 1).
Proof.
  intros Hu Hc Hm Ht.
  pose proof (uniqueIDs_perm _ _ (sortTasksByOrder_perm (Tasks s)) Hu) as Hu'.
  assert (In target (Tasks s)) as Hin.
  { apply lookupTask_lookup in Ht. apply list_elem_of_In. eapply list_elem_of_lookup_2, Ht. }
  split; intros Hall.
  - destruct (relative_move_order ParseFloat now s taskID "before" targetID p mover q target
                (or_introl eq_refl) Hm Ht) as (moved & H1 & H2 & H3).
    exists moved. split; [exact H1|]. split; [exact H2|]. rewrite H3.
    destruct (sorted_head s target Hu Hc Hin Hall) as [after E].
    unfold relativeOrder. simpl String.eqb. cbv iota. rewrite E in *.
    rewrite (prevTask_first _ _ Hu'). reflexivity.
  - destruct (relative_move_order ParseFloat now s taskID "after" targetID p mover q target
                (or_intror eq_refl) Hm Ht) as (moved & H1 & H2 & H3).
    exists moved. split; [exact H1|]. split; [exact H2|]. rewrite H3.
    destruct (sorted_last s target Hu Hc Hin Hall) as [before E].
    unfold relativeOrder. simpl String.eqb. cbv iota. rewrite E in *.
    rewrite (nextTask_last _ _ Hu'). reflexivity.
Qed.

Lemma executeMove_mem now args s :
  mem (executeMove ParseFloat now args s) = s \/
  exists p newOrder, mem (executeMove ParseFloat now args s) = moveTo now p newOrder s.
Proof.
  unfold executeMove.
  destruct args as [|taskID [|arg1 rest]]; [left; reflexivity..|].
  destruct (lookupTask s taskID) as [[p task]|]; [|left; reflexivity].
  destruct (String.eqb arg1 "before" || String.eqb arg1 "after").
  - destruct rest as [|targetTaskID rest]; [left; reflexivity|].
    destruct (lookupTask s targetTaskID) as [[q targetTask]|]; [|left; reflexivity].
    right. rewrite mem_saveAndReport. eauto.
  - destruct (ParseFloat arg1); [|left; reflexivity].
    right. rewrite mem_saveAndReport. eauto.
Qed.

(** X12.  No rebalancing: whatever its arguments and however it ends,
    [mv] leaves the memos as they are, changes the task at one position
    at most, and of a task nothing but its order and its time of
    update. *)
Theorem executeMove_touches_one_task now args s :
  Memos (mem (executeMove ParseFloat now args s)) = Memos s /\
  exists p, forall i,
    (i <> p -> Tasks (mem (executeMove ParseFloat now args s)) !! i = Tasks s !! i) /\
    (forall task, Tasks s !! i = Some task ->
       exists moved, Tasks (mem (executeMove ParseFloat now args s)) !! i = Some moved /\
                     set_UpdatedAt (UpdatedAt task) (set_Order (Order task) moved) = task).
Proof.
  destruct (executeMove_mem now args s) as [->|(p & newOrder & ->)].
  - split; [reflexivity|]. exists 0%nat. intros i. split; [reflexivity|].
    intros task Ht. exists task. split; [exact Ht|]. destruct task; reflexivity.
  - split; [reflexivity|]. exists p. intros i. simpl. split.
    + intros Hi. apply list_lookup_alter_ne. congruence.
    + intros task Ht. destruct (Nat.eq_dec i p) as [->|Hi].
      * rewrite list_lookup_alter_eq, Ht. simpl. eexists. split; [reflexivity|].
        destruct task; reflexivity.
      * rewrite list_lookup_alter_ne by congruence. exists task. split; [exact Ht|].
        destruct task; reflexivity.
Qed.

End MoveEnds.

(** The theorem in the store of three tasks: the last task moved before
    the first one, and after itself. *)
Lemma move_beyond_the_ends_witness :
  (exists moved,
     Tasks (mem (executeMove noParse 0 ["t"; "before"; "x"] chainStore)) !! 2%nat = Some moved /\
     ID moved = "t"%string /\ Order moved = 0) /\
  (exists moved,
     Tasks (mem (executeMove noParse 0 ["t"; "after"; "t"] chainStore)) !! 2%nat = Some moved /\
     ID moved = "t"%string /\ Order moved = 4).
Proof.
  assert (uniqueIDs (Tasks chainStore)) as Hu by (apply uniqueIDs_check; reflexivity).
  assert (comparable (Tasks chainStore)) as Hc by (repeat constructor).
  split.
  - apply (move_beyond_the_ends noParse 0 chainStore "t" "x" 2 0 (plainTask "t" 3 []) (plainTask "x" 1 [])
             Hu Hc eq_refl eq_refl).
    repeat constructor; (left; reflexivity) || (right; reflexivity).
  - apply (move_beyond_the_ends noParse 0 chainStore "t" "t" 2 2 (plainTask "t" 3 []) (plainTask "t" 3 [])
             Hu Hc eq_refl eq_refl).
    repeat constructor; (left; reflexivity) || (right; reflexivity).
Defined.

(** ** The data file *)

Section Settled.

Variable ParseFloat : string -> option float.





(** *** Decoded stores *)












End Settled.


(** ** Finite orders *)

Section Finite.

Lemma MaxFloat64_spec : Prim2SF MaxFloat64 = S754_finite false 9007199254740991 971.
Proof. reflexivity. Qed.

Lemma digits2_pos_bound m : (Zpos m < 2 ^ Zpos (digits2_pos m))%Z.
Proof.
  induction m as [m IH|m IH|]; simpl digits2_pos.
  - rewrite Pos2Z.inj_succ, Z.pow_succ_r by lia. lia.
  - rewrite Pos2Z.inj_succ, Z.pow_succ_r by lia. lia.
  - reflexivity.
Qed.

(** A finite float64 is a zero or has a mantissa and an exponent. *)
Lemma f64_finite_cases x :
  is_finite x = true ->
  (exists s, Prim2SF x = S754_zero s) \/ (exists s m e, Prim2SF x = S754_finite s m e).
Proof.
  unfold is_finite, is_nan, is_infinity.
  rewrite !FloatAxioms.eqb_spec, abs_spec.
  change (Prim2SF infinity) with (S754_infinity false).
  destruct (Prim2SF x) as [s|s| |s m e] eqn:E.
  - intros _. left. eexists. reflexivity.
  - destruct s; vm_compute; discriminate.
  - vm_compute. discriminate.
  - intros _. right. do 3 eexists. reflexivity.
Qed.

Lemma f64_finite_ordered x : is_finite x = true -> ordered x.
Proof.
  unfold is_finite, ordered. destruct (is_nan x); [discriminate|reflexivity].
Qed.

Lemma SFleb_finite s m e (M : positive) (E : Z) :
  (e <= E)%Z -> (m <= M)%positive ->
  SFleb (S754_finite s m e) (S754_finite false M E) = true.
Proof.
  intros He Hm. unfold SFleb, SFcompare. destruct s; [reflexivity|].
  destruct (Z.compare_spec e E); [|reflexivity|lia].
  change (PosDef.Pos.compare_cont Eq m M) with (Pos.compare m M).
  destruct (Pos.compare_spec m M); try reflexivity. lia.
Qed.

Lemma Pos_le_of_Z (m M : positive) : (Zpos m <= Zpos M)%Z -> (m <= M)%positive.
Proof. intros H. exact H. Qed.

Lemma pow_2_53 : (2 ^ 53 = Z.succ 9007199254740991)%Z.
Proof. reflexivity. Qed.

(** Every finite float64 is at most [math.MaxFloat64]: a valid mantissa
    has at most 53 bits and a valid exponent is at most 971. *)
Lemma f64_finite_max x : is_finite x = true -> (x <=? MaxFloat64) = true.
Proof.
  intros H. rewrite FloatAxioms.leb_spec, MaxFloat64_spec.
  pose proof (Prim2SF_valid x) as Hv.
  destruct (f64_finite_cases x H) as [[s E]|(s & m & e & E)]; rewrite E in Hv |- *.
  - destruct s; reflexivity.
  - unfold SpecFloat.valid_binary, bounded, canonical_mantissa, fexp, emin in Hv.
    apply andb_prop in Hv as [Hc He]. apply Z.eqb_eq in Hc. apply Z.leb_le in He.
    change prec with 53%Z in *. change emax with 1024%Z in *.
    assert (Zpos (digits2_pos m) <= 53)%Z as Hd by lia.
    assert (Zpos m < 2 ^ 53)%Z as Hm.
    { eapply Z.lt_le_trans; [apply digits2_pos_bound|].
      apply Z.pow_le_mono_r; [reflexivity|exact Hd]. }
    rewrite pow_2_53 in Hm. apply Z.lt_succ_r in Hm.
    apply SFleb_finite; [clear Hm; lia|]. apply Pos_le_of_Z. exact Hm.
Qed.

Lemma encodable_finite s : encodable s = true -> Forall (fun t => is_finite (Order t) = true) (Tasks s).
Proof.
  unfold encodable. intros H. apply Forall_forall. intros t Ht.
  rewrite forallb_forall in H. apply H. apply list_elem_of_In. exact Ht.
Qed.




End Finite.

(** ** [executeShift] and [executeNext]: the selection of the first task *)

Section Shift.

Implicit Types (tasks : list Task) (s : Store).

(** The scan either keeps the pointer it started with, when no task is
    below the running minimum, or leaves a task whose order is below the
    running minimum and at most every order that can be compared. *)
Lemma selectFirst_spec tasks : forall i firstTask minOrder,
  ordered minOrder ->
  (selectFirst i tasks firstTask minOrder = firstTask /\
   Forall (fun t => ordered (Order t) -> (minOrder <=? Order t) = true) tasks) \/
  (exists k t, selectFirst i tasks firstTask minOrder = Some ((i + k)%nat, t) /\
               tasks !! k = Some t /\ (Order t <? minOrder) = true /\
               Forall (fun u => ordered (Order u) -> (Order t <=? Order u) = true) tasks).
Proof.
  induction tasks as [|t r IH]; intros i firstTask minOrder Hm; simpl.
  - left. split; [reflexivity|constructor].
  - destruct (Order t <? minOrder) eqn:E.
    + right. destruct (f64_ltb_ordered _ _ E) as [Ht _].
      destruct (IH (S i) (Some (i, t)) (Order t) Ht) as [[-> Hall] | (k & u & -> & Hk & Hlt & Hall)].
      * exists 0%nat, t. rewrite Nat.add_0_r. repeat split; try assumption; try reflexivity.
        constructor; [intros _; apply f64_leb_refl; assumption|assumption].
      * exists (S k), u. replace (i + S k)%nat with (S i + k)%nat by lia.
        repeat split; try assumption; try reflexivity.
        -- eapply f64_ltb_trans; eassumption.
        -- constructor; [intros _; apply f64_ltb_leb; assumption|assumption].
    + assert (Hle : ordered (Order t) -> (minOrder <=? Order t) = true).
      { intros Ht. apply f64_not_ltb_leb; assumption. }
      destruct (IH (S i) firstTask minOrder Hm) as [[-> Hall] | (k & u & -> & Hk & Hlt & Hall)].
      * left. split; [reflexivity|]. constructor; assumption.
      * right. exists (S k), u. replace (i + S k)%nat with (S i + k)%nat by lia.
        repeat split; try assumption; try reflexivity.
        constructor; [|assumption]. intros Ht. apply f64_ltb_leb.
        eapply f64_ltb_leb_trans; [exact Hlt|apply Hle; exact Ht].
Qed.

(** The same for the scan that passes over the tasks that are done. *)
Lemma selectUndone_spec tasks : forall i firstTask minOrder,
  ordered minOrder ->
  (selectUndone i tasks firstTask minOrder = firstTask /\
   Forall (fun t => Done t = false -> ordered (Order t) -> (minOrder <=? Order t) = true) tasks) \/
  (exists k t, selectUndone i tasks firstTask minOrder = Some ((i + k)%nat, t) /\
               tasks !! k = Some t /\ Done t = false /\ (Order t <? minOrder) = true /\
               Forall (fun u => Done u = false -> ordered (Order u) -> (Order t <=? Order u) = true) tasks).
Proof.
  induction tasks as [|t r IH]; intros i firstTask minOrder Hm; simpl.
  - left. split; [reflexivity|constructor].
  - destruct (Done t) eqn:Hd; simpl.
    { destruct (IH (S i) firstTask minOrder Hm) as [[-> Hall] | (k & u & -> & Hk & Hu & Hlt & Hall)].
      - left. split; [reflexivity|]. constructor; [congruence|assumption].
      - right. exists (S k), u. replace (i + S k)%nat with (S i + k)%nat by lia.
        repeat split; try assumption; try reflexivity. constructor; [congruence|assumption]. }
    destruct (Order t <? minOrder) eqn:E.
    + right. destruct (f64_ltb_ordered _ _ E) as [Ht _].
      destruct (IH (S i) (Some (i, t)) (Order t) Ht) as [[-> Hall] | (k & u & -> & Hk & Hu & Hlt & Hall)].
      * exists 0%nat, t. rewrite Nat.add_0_r. repeat split; try assumption; try reflexivity.
        constructor; [intros _ _; apply f64_leb_refl; assumption|assumption].
      * exists (S k), u. replace (i + S k)%nat with (S i + k)%nat by lia.
        repeat split; try assumption; try reflexivity.
        -- eapply f64_ltb_trans; eassumption.
        -- constructor; [intros _ _; apply f64_ltb_leb; assumption|assumption].
    + assert (Hle : ordered (Order t) -> (minOrder <=? Order t) = true).
      { intros Ht. apply f64_not_ltb_leb; assumption. }
      destruct (IH (S i) firstTask minOrder Hm) as [[-> Hall] | (k & u & -> & Hk & Hu & Hlt & Hall)].
      * left. split; [reflexivity|]. constructor; [intros _; exact Hle|assumption].
      * right. exists (S k), u. replace (i + S k)%nat with (S i + k)%nat by lia.
        repeat split; try assumption; try reflexivity.
        constructor; [|assumption]. intros _ Ht. apply f64_ltb_leb.
        eapply f64_ltb_leb_trans; [exact Hlt|apply Hle; exact Ht].
Qed.



(** X14.  The selection of [shift task] starts its running minimum at
    [math.MaxFloat64].  On a store with a task of order below it the
    command selects a task of minimal order (at most every order that
    can be compared).  On a store whose orders are all at least
    [math.MaxFloat64] it selects none and ends with the no-tasks-found
    error, for every combination of flags that passes the flag check.
    In a store with finite orders that is the only way to find no task:
    every order is then [math.MaxFloat64] itself. *)
Theorem shift_selects_below_max s :
  ((exists t, In t (Tasks s) /\ (Order t <? MaxFloat64) = true) ->
   exists p firstTask,
     findFirstTask s = Some (p, firstTask) /\ Tasks s !! p = Some firstTask /\
     (Order firstTask <? MaxFloat64) = true /\
     Forall (fun t => ordered (Order t) -> (Order firstTask <=? Order t) = true) (Tasks s)) /\
  (Forall (fun t => (MaxFloat64 <=? Order t) = true) (Tasks s) ->
   findFirstTask s = None /\
   forall now line flags,
     (existsb (String.eqb "--done") flags && existsb (String.eqb "--rm") flags) = false ->
     executeShift now line ("task" :: flags) s = mkRun [] (Failed ErrNoTasksFound) s s) /\
  (encodable s = true -> findFirstTask s = None ->
   Forall (fun t => (Order t =? MaxFloat64) = true) (Tasks s)).
Proof.
  unfold findFirstTask.
  destruct (selectFirst_spec (Tasks s) 0 None MaxFloat64 eq_refl)
    as [[Hsel Hall] | (k & u & Hsel & Hk & Hlt & Hall)]; (split; [|split]).
  - intros (t & Hin & Hlt). exfalso.
    rewrite Forall_forall in Hall. apply list_elem_of_In in Hin.
    destruct (f64_ltb_ordered _ _ Hlt) as [Ht _].
    specialize (Hall t Hin Ht). apply f64_leb_not_ltb in Hall. congruence.
  - intros _. split; [assumption|].
    intros now line flags Hflags. unfold executeShift.
    change (String.eqb "task" "task") with true. cbv beta iota zeta. simpl negb. cbv iota.
    rewrite Hflags. unfold findFirstTask. rewrite Hsel. reflexivity.
  - intros He _. apply encodable_finite in He.
    rewrite Forall_forall in He, Hall. apply Forall_forall. intros t Ht.
    apply f64_leb_antisym.
    + apply f64_finite_max. apply He, Ht.
    + apply Hall; [exact Ht|]. apply f64_finite_ordered. apply He, Ht.
  - intros _. exists k, u. rewrite Hsel. repeat split; assumption.
  - intros Hle. exfalso.
    rewrite Forall_forall in Hle. apply list_elem_of_lookup_2 in Hk.
    specialize (Hle u Hk). apply f64_leb_not_ltb in Hle. congruence.
  - intros _ Hnone. rewrite Hsel in Hnone. discriminate.
Qed.

Lemma set_Done_same t : Done t = false -> set_Done false t = t.
Proof. destruct t; simpl; intros ->; reflexivity. Qed.

(** X15.  [next] shows a task that is not done and whose order is at
    most that of every other task that is not done (and can be
    compared), whenever some task that is not done has an order below
    [math.MaxFloat64]; it leaves the store and the data file as they
    are.  When every task is done, or at [math.MaxFloat64] or above, it
    returns the no-undone-tasks error. *)
Theorem next_selects_undone s :
  ((exists t, In t (Tasks s) /\ Done t = false /\ (Order t <? MaxFloat64) = true) ->
   exists p t out e,
     findFirstUndoneTask s = Some (p, t) /\ Tasks s !! p = Some t /\ Done t = false /\
     Forall (fun u => Done u = false -> ordered (Order u) -> (Order t <=? Order u) = true) (Tasks s) /\
     executeNext s = Ran (mkRun (PrintDetails t :: out) e s s)) /\
  (Forall (fun t => Done t = true \/ (MaxFloat64 <=? Order t) = true) (Tasks s) ->
   executeNext s = Errorf "no undone tasks found").
Proof.
  unfold executeNext, findFirstUndoneTask.
  destruct (selectUndone_spec (Tasks s) 0 None MaxFloat64 eq_refl)
    as [[Hsel Hall] | (k & u & Hsel & Hk & Hu & Hlt & Hall)]; split.
  - intros (t & Hin & Hd & Hlt). exfalso.
    rewrite Forall_forall in Hall. apply list_elem_of_In in Hin.
    destruct (f64_ltb_ordered _ _ Hlt) as [Ht _].
    specialize (Hall t Hin Hd Ht). apply f64_leb_not_ltb in Hall. congruence.
  - intros _. rewrite Hsel. reflexivity.
  - intros _. exists k, u. rewrite Hsel, (set_Done_same u Hu).
    destruct (match MemoRefs u with
              | [] => ([], true)
              | refs => let '(lines, ok) := printMemoRefs s refs in (PrintReferencedMemos :: lines, ok)
              end) as [memos ok].
    do 2 eexists. repeat split; try eassumption.
  - intros Hle. exfalso.
    rewrite Forall_forall in Hle. apply list_elem_of_lookup_2 in Hk.
    destruct (Hle u Hk) as [Hd|Hm]; [congruence|].
    apply f64_leb_not_ltb in Hm. congruence.
Qed.


End Shift.

(** The theorem in a store whose first task ties with the second, and in
    the store of one task at [math.MaxFloat64]. *)
Lemma shift_selects_below_max_witness :
  (exists p firstTask,
     findFirstTask tieStore = Some (p, firstTask) /\ Tasks tieStore !! p = Some firstTask /\
     (Order firstTask <? MaxFloat64) = true /\
     Forall (fun t => ordered (Order t) -> (Order firstTask <=? Order t) = true) (Tasks tieStore)) /\
  executeShift 0 "" ["task"; "--done"] farStore = mkRun [] (Failed ErrNoTasksFound) farStore farStore.
Proof.
  split.
  - apply (shift_selects_below_max tieStore).
    exists (plainTask "a" 1 []). split; [left; reflexivity|reflexivity].
  - apply (shift_selects_below_max farStore).
    + repeat constructor.
    + reflexivity.
Defined.

(** The theorem in a store of four open tasks, and in the store that
    [shift task --done] leaves of a store with one task. *)
Lemma next_selects_undone_witness :
  (exists p t out e,
     findFirstUndoneTask tieStore = Some (p, t) /\ Tasks tieStore !! p = Some t /\ Done t = false /\
     Forall (fun u => Done u = false -> ordered (Order u) -> (Order t <=? Order u) = true) (Tasks tieStore) /\
     executeNext tieStore = Ran (mkRun (PrintDetails t :: out) e tieStore tieStore)) /\
  executeNext (mem (executeShift 0 "" ["task"; "--done"] negativeStore)) = Errorf "no undone tasks found".
Proof.
  split.
  - apply (next_selects_undone tieStore). exists (plainTask "a" 1 []).
    split; [left; reflexivity|]. split; reflexivity.
  - apply (next_selects_undone (mem (executeShift 0 "" ["task"; "--done"] negativeStore))).
    repeat constructor.
Defined.


(** ** A stack and a queue: [push task] with [pop task], [unshift task] with [shift task] *)

Section StackAndQueue.

Implicit Types (s store : Store).

(** What an [add task], [push task] or [unshift task] that returned nil did. *)
Lemma executeAddTask_added now uuids file lines title flags mode s :
  title <> "-f" -> title <> "--from-stdin" ->
  result (executeAddTask now uuids file lines (title :: flags) mode s) = Nil ->
  exists id description requested memoRefs,
    let task := set_Order (placedOrder mode s) (NewTask now id title description memoRefs) in
    hd_error uuids = Some id /\
    resolveMemoRefs s requested = Ok memoRefs /\ unknownMemoRef s memoRefs = None /\
    encodable (AddTask task s) = true /\
    executeAddTask now uuids file lines (title :: flags) mode s =
    mkRun [PrintTaskAdded id] Nil (AddTask task s) (written (AddTask task s)).
Proof.
  intros H1 H2. unfold executeAddTask.
  apply String.eqb_neq in H1, H2. rewrite H1, H2. simpl orb. cbv iota.
  destruct (parseTaskFlags flags "" "") as [description memoRefsStr].
  destruct (resolveMemoRefs s _) as [memoRefs|e] eqn:Hres; [|discriminate].
  destruct uuids as [|id uuids]; [discriminate|].
  destruct (unknownMemoRef s memoRefs) eqn:Hun; [discriminate|].
  unfold saveNewAndReport. destruct (encodable _) eqn:He; [|discriminate].
  intros _. exists id, description. do 2 eexists. cbv zeta.
  split; [reflexivity|]. split; [exact Hres|]. split; [exact Hun|]. split; [exact He|reflexivity].
Qed.









End StackAndQueue.



(** ** The references of a new task *)

Section References.

Implicit Types (s store : Store).

Lemma resolveMemoRefs_spec s requested : forall memoRefs,
  resolveMemoRefs s requested = Ok memoRefs ->
  Forall2 (fun refID id =>
             if (String.length refID <? 36)%nat
             then exists memo, In memo (Memos s) /\ Memo.ID memo = id /\ HasPrefix id refID = true
             else id = refID)
          requested memoRefs.
Proof.
  induction requested as [|refID r IH]; intros memoRefs; simpl.
  - intros [= <-]. constructor.
  - destruct (String.length refID <? 36)%nat eqn:Hlen.
    + destruct (scan _ (Memos s)) as [[i memo]|] eqn:Hscan; [|discriminate].
      destruct (resolveMemoRefs s r) as [ids|e]; [|discriminate].
      intros [= <-]. constructor; [|apply IH; reflexivity].
      rewrite Hlen. apply scan_In in Hscan as [Hin Hp]. exists memo. auto.
    + destruct (resolveMemoRefs s r) as [ids|e]; [|discriminate].
      intros [= <-]. constructor; [|apply IH; reflexivity].
      rewrite Hlen. reflexivity.
Qed.

Lemma unknownMemoRef_none s memoRefs :
  unknownMemoRef s memoRefs = None ->
  Forall (fun memoID => String.length memoID = 36%nat ->
                        exists memo, In memo (Memos s) /\ Memo.ID memo = memoID) memoRefs.
Proof.
  unfold unknownMemoRef. intros H. apply Forall_forall. intros memoID Hin Hlen.
  apply list_elem_of_In in Hin.
  pose proof (find_none _ _ H memoID Hin) as Hf. simpl in Hf.
  rewrite Hlen in Hf. simpl in Hf.
  unfold FindMemoByID in Hf.
  destruct (scan _ (Memos s)) as [[i memo]|] eqn:Hscan; [|discriminate].
  apply scan_In in Hscan as [Hm Hp]. exists memo. split; [exact Hm|].
  apply String.eqb_eq, Hp.
Qed.

(** X19.  The references of a task that [add task], [push task] or
    [unshift task] created: the command appends one task, which is not
    done and has the title given and the identifier generated, and every
    reference of that task is the identifier of a memo of the store, or
    is a text of more than 36 bytes, which the command takes as it is
    given. *)
Theorem executeAddTask_references now uuids file lines title flags mode s :
  title <> "-f" -> title <> "--from-stdin" ->
  result (executeAddTask now uuids file lines (title :: flags) mode s) = Nil ->
  exists task,
    mem (executeAddTask now uuids file lines (title :: flags) mode s) = AddTask task s /\
    hd_error uuids = Some (ID task) /\ Title task = title /\ Done task = false /\
    Forall (fun memoID =>
              (exists memo, In memo (Memos s) /\ Memo.ID memo = memoID) \/
              (36 < String.length memoID)%nat)
           (MemoRefs task).
Proof.
  intros H1 H2 Hnil.
  destruct (executeAddTask_added _ _ _ _ _ _ _ _ H1 H2 Hnil)
    as (id & description & requested & memoRefs & Hid & Hres & Hun & _ & Hr).
  cbv zeta in Hr. rewrite Hr. eexists. split; [reflexivity|]. simpl.
  split; [exact Hid|]. split; [reflexivity|]. split; [reflexivity|].
  apply resolveMemoRefs_spec in Hres. apply unknownMemoRef_none in Hun.
  clear Hr Hnil. induction Hres as [|refID memoID requested memoRefs Hhead Htail IH]; [constructor|].
  apply Forall_cons in Hun as [Hknown Hun].
  constructor; [|apply IH, Hun].
  destruct (String.length refID <? 36)%nat eqn:Hlen.
  - destruct Hhead as (memo & Hin & Hm & _). left. exists memo. auto.
  - subst memoID. apply Nat.ltb_ge in Hlen.
    destruct (Nat.eq_dec (String.length refID) 36%nat) as [E|E]; [left; apply Hknown, E|right; lia].
Qed.

(** Two prefixes of the identifier of the one memo, the second after a space. *)
Lemma executeAddTask_references_witness :
  exists task,
    mem (executeAddTask 0 [taskQ] None [] ["t"; "-m"; "0b5c, 0b"] "add" linkedStore) = AddTask task linkedStore /\
    MemoRefs task = [memoM; memoM].
Proof.
  destruct (executeAddTask_references 0 [taskQ] None [] "t" ["-m"; "0b5c, 0b"] "add" linkedStore)
    as (task & Hmem & _).
  - discriminate.
  - discriminate.
  - vm_compute. reflexivity.
  - exists task. split; [exact Hmem|].
    assert (Tasks (mem (executeAddTask 0 [taskQ] None [] ["t"; "-m"; "0b5c, 0b"] "add" linkedStore)) !! 2%nat
            = Some task) as Hk by (rewrite Hmem; reflexivity).
    vm_compute in Hk. injection Hk as <-. reflexivity.
Defined.

End References.

(** ** Ingestion: memo blocks, identifiers and titles *)

Section Ingestion.

Implicit Types (store : Store) (content : string).

(** The loop over the matches uses one identifier per match, in the
    sequence of the matches, and fails when they run out. *)
Lemma extractMemos_spec now groups : forall uuids content memos,
  match extractMemos now groups uuids content memos with
  | Ok (memos', _, uuids') =>
      (length groups <= length uuids)%nat /\
      memos' = memos ++ zip_with (fun memoID group => NewMemo now memoID None group) uuids groups /\
      uuids' = drop (length groups) uuids
  | Err e => (length uuids < length groups)%nat /\ e = ErrUUIDMemo
  end.
Proof.
  induction groups as [|group r IH]; intros uuids content memos; simpl.
  - split; [lia|]. split; [|reflexivity]. destruct uuids; simpl; rewrite app_nil_r; reflexivity.
  - destruct uuids as [|memoID uuids]; simpl; [split; [lia|reflexivity]|].
    specialize (IH uuids (Replace1 content (memoOpen ++ group ++ memoClose)%string
                                   ("[memo](" ++ memoID ++ ")")%string)
                   (memos ++ [NewMemo now memoID None group])).
    destruct (extractMemos now r uuids _ _) as [[[memos' content'] uuids']|e].
    + destruct IH as (Hlen & -> & ->). split; [lia|]. split; [|reflexivity].
      rewrite <- app_assoc. reflexivity.
    + destruct IH as [Hlen ->]. split; [lia|reflexivity].
Qed.

Lemma parseMarkdown_unfold store now uuids content defaultTitle :
  parseMarkdown store now uuids content defaultTitle =
  match extractMemos now (memoMatches (String.length (withoutTitles content)) (withoutTitles content))
                     uuids (withoutTitles content) [] with
  | Err e => Err e
  | Ok (memos, description, uuids) =>
      match uuids with
      | [] => Err ErrUUIDTask
      | taskID :: _ =>
          Ok (set_Order (GetMaxTaskOrder store + 1)
                (NewTask now taskID (match titleMatch content with Some group => group | None => defaultTitle end)
                   (TrimSpace description) (map Memo.ID memos)), memos)
      end
  end.
Proof.
  unfold parseMarkdown, withoutTitles. destruct (titleMatch content); reflexivity.
Qed.


Lemma map_ID_zip_with now (uuids groups : list string) :
  map Memo.ID (zip_with (fun memoID group => NewMemo now memoID None group) uuids groups) =
  take (length groups) uuids.
Proof.
  revert groups. induction uuids as [|u uuids IH]; intros [|g groups]; simpl; try reflexivity.
  rewrite IH. reflexivity.
Qed.

Lemma map_Content_zip_with now (uuids groups : list string) :
  (length groups <= length uuids)%nat ->
  map Memo.Content (zip_with (fun memoID group => NewMemo now memoID None group) uuids groups) = groups.
Proof.
  revert groups. induction uuids as [|u uuids IH]; intros [|g groups]; simpl; try reflexivity; try lia.
  intros H. rewrite IH by lia. reflexivity.
Qed.

(** X20.  What [parseMarkdown] returns on success.  The memos are the
    matches of the memo pattern in the content without its headings, in
    the sequence of the text: the content of a memo is the group of its
    match, its title is nil and its identifier is the next one
    generated.  The references of the task are the identifiers of these
    memos in that sequence, the identifier of the task is the one
    generated after them, the task is not done and its order is the
    maximum plus 1.0. *)
Theorem parseMarkdown_memos store now uuids content defaultTitle task memos :
  parseMarkdown store now uuids content defaultTitle = Ok (task, memos) ->
  let groups := memoMatches (String.length (withoutTitles content)) (withoutTitles content) in
  map Memo.Content memos = groups /\
  map Memo.ID memos = take (length groups) uuids /\
  Forall (fun memo => Memo.Title memo = None) memos /\
  MemoRefs task = map Memo.ID memos /\
  uuids !! length groups = Some (ID task) /\
  Order task = GetMaxTaskOrder store + 1 /\ Done task = false.
Proof.
  rewrite parseMarkdown_unfold. intros H groups. fold groups in H.
  pose proof (extractMemos_spec now groups uuids (withoutTitles content) []) as Hspec.
  destruct (extractMemos now groups uuids (withoutTitles content) []) as [[[memos' description] uuids']|e];
    [|discriminate].
  destruct Hspec as (Hlen & -> & ->). simpl in H.
  destruct (drop (length groups) uuids) as [|taskID rest] eqn:Hdrop; [discriminate|].
  injection H as <- <-. simpl.
  split; [apply map_Content_zip_with, Hlen|].
  split; [apply map_ID_zip_with|].
  split.
  { clear. generalize uuids. induction groups as [|g groups IH]; intros [|u us]; simpl; constructor.
    - reflexivity.
    - apply IH. }
  split; [reflexivity|]. split; [|split; reflexivity].
  rewrite <- (Nat.add_0_r (length groups)), <- lookup_drop, Hdrop. reflexivity.
Qed.

(** X21.  [parseMarkdown] needs one identifier for every memo block it
    matches and one for the task: with fewer identifiers than blocks it
    returns the error of the memo identifier, with exactly as many the
    error of the task identifier, and with more it succeeds with one
    memo per block. *)
Theorem parseMarkdown_identifiers store now uuids content defaultTitle :
  let blocks := length (memoMatches (String.length (withoutTitles content)) (withoutTitles content)) in
  ((length uuids < blocks)%nat ->
   parseMarkdown store now uuids content defaultTitle = Err ErrUUIDMemo) /\
  (length uuids = blocks ->
   parseMarkdown store now uuids content defaultTitle = Err ErrUUIDTask) /\
  ((blocks < length uuids)%nat ->
   exists task memos, parseMarkdown store now uuids content defaultTitle = Ok (task, memos) /\
                      length memos = blocks).
Proof.
  intros blocks. subst blocks. rewrite parseMarkdown_unfold.
  set (groups := memoMatches (String.length (withoutTitles content)) (withoutTitles content)).
  pose proof (extractMemos_spec now groups uuids (withoutTitles content) []) as Hspec.
  destruct (extractMemos now groups uuids (withoutTitles content) []) as [[[memos' description] uuids']|e].
  - destruct Hspec as (Hlen & -> & ->). split; [lia|]. split.
    + intros E. rewrite drop_ge by lia. reflexivity.
    + intros Hlt. destruct (drop (length groups) uuids) as [|taskID rest] eqn:Hdrop.
      * apply (f_equal length) in Hdrop. rewrite length_drop in Hdrop. simpl in Hdrop. lia.
      * do 2 eexists. split; [reflexivity|]. simpl. rewrite length_zip_with. lia.
  - destruct Hspec as [Hlen ->]. split; [reflexivity|]. split; lia.
Qed.

Lemma find_none_Forall {A : Type} (p : A -> bool) (l : list A) :
  Forall (fun x => p x = false) l -> find p l = None.
Proof.
  induction 1 as [|x l Hx Hl IH]; simpl; [reflexivity|]. rewrite Hx. exact IH.
Qed.

(** X22.  Plain content: when no line of the content is a heading and
    the memo pattern does not match (there is no opening fence, or no
    closing fence after the first opening one), [parseMarkdown] returns
    no memo and a task without references, with the default title, and
    the whole content, trimmed, as its description. *)
Theorem parseMarkdown_plain store now taskID uuids content defaultTitle :
  Forall (fun line => isHeading line = false) (Split content lf) ->
  memoMatch content = None ->
  parseMarkdown store now (taskID :: uuids) content defaultTitle =
  Ok (set_Order (GetMaxTaskOrder store + 1) (NewTask now taskID defaultTitle (TrimSpace content) []), []).
Proof.
  intros Hlines Hmemo. unfold parseMarkdown, titleMatch.
  rewrite (find_none_Forall _ _ Hlines). simpl option_map. cbv iota beta.
  assert (memoMatches (String.length content) content = []) as ->.
  { destruct (String.length content); simpl; [reflexivity|]. rewrite Hmemo. reflexivity. }
  reflexivity.
Qed.


End Ingestion.

(** The theorem at the document with one memo block. *)
Lemma parseMarkdown_memos_witness :
  memoMatches (String.length (withoutTitles (memoDocument "Title" "X")))
              (withoutTitles (memoDocument "Title" "X")) = ["X"%string] /\
  [memoM; taskP] !! 1%nat = Some taskP.
Proof.
  destruct (parseMarkdown_memos NewStore 0 [memoM; taskP] (memoDocument "Title" "X") "untitled"
              (mkTask taskP "Title" ("[memo](" ++ memoM ++ ")") 1 false [memoM] 0 0)
              [Memo.mk memoM None "X" 0 0]) as (H1 & _ & _ & _ & H5 & _).
  - vm_compute. reflexivity.
  - split; [symmetry; exact H1|exact H5].
Defined.

(** The same document with no identifier, and with one. *)
Lemma parseMarkdown_identifiers_witness :
  parseMarkdown NewStore 0 [] (memoDocument "Title" "X") "untitled" = Err ErrUUIDMemo /\
  parseMarkdown NewStore 0 [memoM] (memoDocument "Title" "X") "untitled" = Err ErrUUIDTask.
Proof.
  destruct (parseMarkdown_identifiers NewStore 0 [] (memoDocument "Title" "X") "untitled") as (H1 & _).
  destruct (parseMarkdown_identifiers NewStore 0 [memoM] (memoDocument "Title" "X") "untitled") as (_ & H2 & _).
  split; [apply H1|apply H2].
  - vm_compute. lia.
  - vm_compute. reflexivity.
Defined.

(** A text with an opening fence that is never closed. *)
Lemma parseMarkdown_plain_witness :
  parseMarkdown NewStore 0 [taskP] ("buy milk" ++ newline ++ "```memo" ++ newline ++ "never closed") "untitled" =
  Ok (mkTask taskP "untitled" ("buy milk" ++ newline ++ "```memo" ++ newline ++ "never closed") 1 false [] 0 0, []).
Proof.
  apply (parseMarkdown_plain NewStore 0 taskP []
           ("buy milk" ++ newline ++ "```memo" ++ newline ++ "never closed") "untitled").
  - repeat constructor.
  - reflexivity.
Defined.


(** ** The default title of a file *)

Section Paths.

Variable sep : ascii.

Lemma Split_whole w : without sep w = true -> Split w sep = [w].
Proof.
  induction w as [|c w IH]; simpl; [reflexivity|].
  intros H. apply andb_prop in H as [Hc Hw]. apply negb_true_iff in Hc.
  rewrite Hc, (IH Hw). reflexivity.
Qed.

Lemma Split_never_nil s : Split s sep <> [].
Proof.
  induction s as [|c r IH]; simpl; [discriminate|].
  destruct (Ascii.eqb c sep); [discriminate|]. destruct (Split r sep); discriminate.
Qed.

Lemma Split_at a b : Split (a ++ String sep b)%string sep = Split a sep ++ Split b sep.
Proof.
  induction a as [|c r IH].
  - rewrite append_empty_l. simpl. rewrite Ascii.eqb_refl. reflexivity.
  - rewrite append_cons. simpl. rewrite IH. destruct (Ascii.eqb c sep); [reflexivity|].
    pose proof (Split_never_nil r) as Hne.
    destruct (Split r sep); [congruence|reflexivity].
Qed.

Lemma Join_Split_sep s : Join (Split s sep) (String sep EmptyString) = s.
Proof.
  induction s as [|c r IH]; simpl; [reflexivity|].
  pose proof (Split_never_nil r) as Hne.
  destruct (Split r sep) as [|w ws] eqn:Es; [congruence|].
  destruct (Ascii.eqb c sep) eqn:E.
  - apply Ascii.eqb_eq in E. subst c. rewrite Join_cons, IH. reflexivity.
  - destruct ws as [|w' ws'].
    + simpl in *. rewrite IH. reflexivity.
    + rewrite Join_cons in *. rewrite append_cons, IH. reflexivity.
Qed.

End Paths.

Lemma last_app_single {A : Type} (l : list A) x d : List.last (l ++ [x]) d = x.
Proof.
  induction l as [|a l IH]; [reflexivity|]. simpl.
  destruct (l ++ [x]) eqn:E; [destruct l; discriminate|exact IH].
Qed.

(** X25.  The default title that [ParseFromFile] takes from the path:
    for a path [dir/name.ext], in which [name] and [ext] have no slash
    and [ext] has no dot, it is [name], dots of [name] included; for a
    file name without a dot it is the file name, with or without a
    directory in front. *)
Theorem baseName_strips dir name ext :
  without "/" name = true -> without "/" ext = true -> without "." ext = true ->
  baseName (dir ++ "/" ++ name ++ "." ++ ext) = name /\
  (without "." name = true -> baseName (dir ++ "/" ++ name) = name /\ baseName name = name).
Proof.
  intros Hname Hext Hdot.
  assert (forall file, without "/" file = true ->
            List.last (Split (dir ++ "/" ++ file) "/") (dir ++ "/" ++ file)%string = file) as Hlast.
  { intros file Hfile. change ("/" ++ file)%string with (String "/" file).
    rewrite Split_at, (Split_whole _ _ Hfile). apply last_app_single. }
  assert (without "/" (name ++ "." ++ ext) = true) as Hfile.
  { clear - Hname Hext. induction name as [|c name IH]; simpl in *.
    - rewrite append_empty_l. exact Hext.
    - rewrite append_cons. simpl. apply andb_prop in Hname as [Hc Hname].
      rewrite Hc. simpl. apply IH, Hname. }
  split.
  - unfold baseName. rewrite (Hlast _ Hfile).
    change ("." ++ ext)%string with (String "." ext).
    rewrite Split_at, (Split_whole _ _ Hdot).
    pose proof (Split_never_nil "." name) as Hne.
    destruct (Split name "." ++ [ext]) as [|w [|w' ws]] eqn:E.
    + destruct (Split name "."); discriminate.
    + destruct (Split name ".") as [|x [|y l]]; [congruence|discriminate..].
    + rewrite <- E, removelast_last. apply Join_Split_sep.
  - intros Hplain. unfold baseName. split.
    + rewrite (Hlast _ Hname), (Split_whole _ _ Hplain). reflexivity.
    + rewrite (Split_whole _ _ Hname). simpl List.last. rewrite (Split_whole _ _ Hplain). reflexivity.
Qed.

Lemma baseName_strips_witness :
  baseName "notes/2024/todo.list.md" = "todo.list"%string /\ baseName "notes/todo" = "todo"%string.
Proof.
  split.
  - apply (baseName_strips "notes/2024" "todo.list" "md"); reflexivity.
  - apply (baseName_strips "notes" "todo" "md"); reflexivity.
Defined.

(** ** [executeFlattask] and the ingestion of its output *)

Section FlattaskTitle.

Variable Parse : list string -> option (list string).

Lemma titleMatch_first_line title rest :
  title <> EmptyString -> oneLine title = true ->
  titleMatch ("# " ++ title ++ newline ++ rest) = Some title.
Proof.
  intros Hne Hone. unfold titleMatch.
  change ("# " ++ title ++ newline ++ rest)%string with (String "#" (String " " (title ++ String lf rest))).
  assert (Split (String "#" (String " " (title ++ String lf rest))) lf =
          String "#" (String " " title) :: Split rest lf) as ->.
  { change (String "#" (String " " (title ++ String lf rest)))
      with (String "#" (String " " title) ++ String lf rest)%string.
    apply Split_one_line. simpl. exact Hone. }
  simpl find.
  assert (isHeading (String "#" (String " " title)) = true) as ->.
  { unfold isHeading. rewrite !HasPrefix_cons, HasPrefix_empty. simpl.
    destruct title; [congruence|reflexivity]. }
  reflexivity.
Qed.

(** X26.  From [flattask] back to [add task].  When [flattask] prints
    a text, the flag parser left a first argument for which the lookup
    found a task, and the text is the document of that task followed by
    the line feed of [fmt.Println]: the line [# title] and an empty
    line, the status line ([Completed] when the task is done) and an
    empty line, the description under its heading when it is not empty,
    and, when the task has references, the heading [## Referenced
    Memos] and the section of every reference in order.  When the title
    of the task is not empty and has no line feed, the title pattern of
    the parser matches that text with the title, so every task that
    [parseMarkdown] makes of the text has the title of the task. *)
Theorem flattask_keeps_title args store text :
  executeFlattask Parse args store = Flattened text ->
  exists taskID rest p task doc sections,
    Parse args = Some (taskID :: rest) /\ lookupTask store taskID = Some (p, task) /\
    flattaskDocument store task = Some doc /\ text = (doc ++ newline)%string /\
    memoSections store (MemoRefs task) = Some sections /\
    doc = ("# " ++ Title task ++ newline ++ newline ++
           (if Done task then "**Status:** Completed" else "**Status:** Not completed") ++
           newline ++ newline ++
           (if String.eqb (Description task) "" then ""
            else "## Description" ++ newline ++ newline ++ Description task ++ newline ++ newline) ++
           match MemoRefs task with
           | [] => ""
           | _ => "## Referenced Memos" ++ newline ++ newline ++ sections
           end)%string /\
    (Title task <> EmptyString -> oneLine (Title task) = true ->
     titleMatch text = Some (Title task) /\
     forall store' now uuids defaultTitle task' memos,
       parseMarkdown store' now uuids text defaultTitle = Ok (task', memos) ->
       Title task' = Title task).
Proof.
  unfold executeFlattask.
  destruct (Parse args) as [[|taskID rest]|] eqn:HP; try discriminate.
  destruct (lookupTask store taskID) as [[p task]|] eqn:Hl; [|discriminate].
  destruct (flattaskDocument store task) as [doc|] eqn:Hdoc; [|discriminate].
  intros [= <-].
  assert (exists sections,
            memoSections store (MemoRefs task) = Some sections /\
            doc = ("# " ++ Title task ++ newline ++ newline ++
                   (if Done task then "**Status:** Completed" else "**Status:** Not completed") ++
                   newline ++ newline ++
                   (if String.eqb (Description task) "" then ""
                    else "## Description" ++ newline ++ newline ++ Description task ++ newline ++ newline) ++
                   match MemoRefs task with
                   | [] => ""
                   | _ => "## Referenced Memos" ++ newline ++ newline ++ sections
                   end)%string) as (sections & Hsections & Edoc).
  { unfold flattaskDocument in Hdoc. cbv zeta in Hdoc.
    destruct (MemoRefs task) as [|memoID refs].
    - injection Hdoc as <-. exists EmptyString. split; [reflexivity|].
      rewrite !append_assoc, append_empty_r. reflexivity.
    - destruct (memoSections store (memoID :: refs)) as [sections|]; [|discriminate].
      injection Hdoc as <-. exists sections. split; [reflexivity|].
      rewrite !append_assoc. reflexivity. }
  exists taskID, rest, p, task, doc, sections.
  split; [reflexivity|]. split; [exact Hl|]. split; [exact Hdoc|]. split; [reflexivity|].
  split; [exact Hsections|]. split; [exact Edoc|].
  intros Hne Hone.
  assert (exists rest', (doc ++ newline)%string = ("# " ++ Title task ++ newline ++ rest')%string) as [rest' E].
  { rewrite Edoc. eexists. rewrite !append_assoc. reflexivity. }
  rewrite E. pose proof (titleMatch_first_line _ rest' Hne Hone) as Ht.
  split; [exact Ht|].
  intros store' now uuids defaultTitle task' memos Hparse.
  exact (parseMarkdown_title _ _ _ _ _ _ _ _ Ht Hparse).
Qed.

End FlattaskTitle.

(** The document of task P, which refers to the one memo twice. *)
Lemma flattask_keeps_title_witness :
  exists text doc,
    executeFlattask (fun args => Some args) ["5e0f"] linkedStore = Flattened text /\
    flattaskDocument linkedStore (plainTask taskP 1 [memoM; memoM]) = Some doc /\
    text = (doc ++ newline)%string /\
    titleMatch text = Some taskP.
Proof.
  destruct (flattask_keeps_title (fun args => Some args) ["5e0f"] linkedStore _ eq_refl)
    as (taskID & rest & p & task & doc & sections & HP & Hl & Hdoc & Htext & _ & _ & H).
  injection HP as <- <-. vm_compute in Hl. injection Hl as <- <-.
  eexists. exists doc. split; [reflexivity|]. split; [exact Hdoc|]. split; [exact Htext|].
  apply H; [discriminate|reflexivity].
Defined.

(** ** [GenerateUUID] *)

Section UUID.

(** A property of all bytes, checked on each of the 256. *)
Lemma byte_cases (P : Z -> Prop) (check : Z -> bool) :
  (forall b, check b = true -> P b) ->
  forallb (fun n => check (Z.of_nat n)) (seq 0 256) = true ->
  forall b, (0 <= b < 256)%Z -> P b.
Proof.
  intros Hcheck Hall b Hb. apply Hcheck.
  rewrite forallb_forall in Hall. specialize (Hall (Z.to_nat b)).
  rewrite Z2Nat.id in Hall by lia. apply Hall. apply in_seq. lia.
Qed.

Lemma version_digit b : (0 <= b < 256)%Z -> hexDigit (Z.lor (Z.land b 0x0f) 0x40 / 16) = "4"%char.
Proof.
  revert b.
  apply (byte_cases (fun b => hexDigit (Z.lor (Z.land b 0x0f) 0x40 / 16) = "4"%char)
                    (fun b => Ascii.eqb (hexDigit (Z.lor (Z.land b 0x0f) 0x40 / 16)) "4")).
  - intros x. apply Ascii.eqb_eq.
  - vm_compute. reflexivity.
Qed.

Lemma variant_digit b :
  (0 <= b < 256)%Z ->
  In (hexDigit (Z.lor (Z.land b 0x3f) 0x80 / 16)) ["8"; "9"; "a"; "b"]%char.
Proof.
  revert b.
  apply (byte_cases (fun b => In (hexDigit (Z.lor (Z.land b 0x3f) 0x80 / 16)) ["8"; "9"; "a"; "b"]%char)
                    (fun b => existsb (Ascii.eqb (hexDigit (Z.lor (Z.land b 0x3f) 0x80 / 16)))
                                      ["8"; "9"; "a"; "b"]%char)).
  - intros x Hx. apply existsb_exists in Hx as (c & Hin & Hc). apply Ascii.eqb_eq in Hc. subst c. exact Hin.
  - vm_compute. reflexivity.
Qed.

(** X27.  The identifiers that [GenerateUUID] makes of 16 random bytes
    have 36 bytes, hyphens at the positions 8, 13, 18 and 23, the
    version digit 4 at position 14 and one of the variant digits 8, 9,
    a, b at position 19.  So the slice [id[:8]] that the commands print
    never panics on them, and a lookup by such an identifier compares
    whole identifiers and never prefixes. *)
Theorem GenerateUUID_format random id :
  length random = 16%nat -> Forall (fun b => (0 <= b < 256)%Z) random ->
  GenerateUUID (Some random) = Some id ->
  String.length id = 36%nat /\
  (forall i, In i [8; 13; 18; 23]%nat -> String.get i id = Some "-"%char) /\
  String.get 14 id = Some "4"%char /\
  (exists c, String.get 19 id = Some c /\ In c ["8"; "9"; "a"; "b"]%char) /\
  (exists id8, slice8 id = Some id8) /\
  forall store, lookupTask store id = FindTaskByID store id /\ lookupMemo store id = FindMemoByID store id.
Proof.
  intros Hlen Hbytes.
  do 16 (destruct random as [|? random]; [discriminate|]).
  destruct random; [|discriminate]. clear Hlen.
  repeat (apply Forall_cons in Hbytes as [? Hbytes]).
  unfold GenerateUUID, slice. cbn [alter list_alter take drop Nat.sub hex].
  rewrite !append_cons, !append_empty_l.
  intros [= <-].
  split; [reflexivity|].
  split; [intros i [<-|[<-|[<-|[<-|[]]]]]; reflexivity|].
  split; [cbn [String.get]; rewrite version_digit by assumption; reflexivity|].
  split; [eexists; split; [cbn [String.get]; reflexivity|apply variant_digit; assumption]|].
  split; [eexists; reflexivity|].
  intros store. split; reflexivity.
Qed.

End UUID.

Lemma GenerateUUID_format_witness :
  GenerateUUID (Some randomBytes) = Some "12345678-9abc-4ef0-8123-456789abcdef"%string /\
  String.length "12345678-9abc-4ef0-8123-456789abcdef" = 36%nat /\
  String.get 14 "12345678-9abc-4ef0-8123-456789abcdef" = Some "4"%char.
Proof.
  split; [reflexivity|].
  destruct (GenerateUUID_format randomBytes "12345678-9abc-4ef0-8123-456789abcdef") as (H1 & _ & H3 & _).
  - reflexivity.
  - unfold randomBytes. repeat (constructor; [lia|]). constructor.
  - reflexivity.
  - split; [exact H1|exact H3].
Defined.
